(** * Verification of the YouTube-to-MP3/MP4 download scripts

    Shallow embedding of [TY_To_mp3_or_mp4.py] and [Link_to_YT.py].

    Python strings are modelled as lists of characters ([list ascii]), the
    file system as the finite set of paths that exist ([gset (list ascii)]),
    the stream catalogue of the resolver library as a list of stream
    records, and the jobs as computations in a small state-and-exception
    monad that records every external action in a trace.

    The first part holds the model, the second part its properties. *)

From Stdlib Require Import Ascii String List Arith ZArith NArith Lia Permutation.
From Stdlib Require Import DecimalString DecimalNat.
From stdpp Require Import base decidable option list sorting sets gmap strings.

Open Scope list_scope.

(** * Part I: the model *)

(** ** Strings *)

Abbreviation str := (list ascii).

(** A Python string literal. *)
Definition py (s : string) : str := list_ascii_of_string s.
Arguments py : simpl never.

(** [s.replace(old, new)] for one-character [old] and [new]. *)
Definition str_replace (old new : ascii) (s : str) : str :=
  map (fun c => if Ascii.eqb c old then new else c) s.

(** [s.rfind(c)] for a one-character [c]: the index of the last occurrence,
    or -1. *)
Fixpoint rfind (c : ascii) (s : str) : Z :=
  match s with
  | [] => (-1)%Z
  | x :: s' =>
      let r := rfind c s' in
      if (0 <=? r)%Z then (r + 1)%Z
      else if Ascii.eqb x c then 0%Z else (-1)%Z
  end.

(** [s[:i]] and [s[i:]] for an index [i >= 0]. *)
Definition slice_to (i : Z) (s : str) : str := take (Z.to_nat i) s.
Definition slice_from (i : Z) (s : str) : str := drop (Z.to_nat i) s.

(** [s.startswith(c)] and [s.endswith(c)] for a one-character [c]. *)
Definition startswith (c : ascii) (s : str) : bool :=
  match s with x :: _ => Ascii.eqb x c | [] => false end.
Definition endswith (c : ascii) (s : str) : bool :=
  match last s with Some x => Ascii.eqb x c | None => false end.

(** [s.rstrip(c)]. *)
Fixpoint rstrip (c : ascii) (s : str) : str :=
  match s with
  | [] => []
  | x :: s' =>
      match rstrip c s' with
      | [] => if Ascii.eqb x c then [] else [x]
      | r => x :: r
      end
  end.

(** [s.lower()] on ASCII letters. *)
Definition lower_char (c : ascii) : ascii :=
  let n := nat_of_ascii c in
  if (65 <=? n) && (n <=? 90) then ascii_of_nat (n + 32) else c.
Definition lower (s : str) : str := map lower_char s.

(** [sep.join(items)]. *)
Fixpoint str_join (sep : str) (items : list str) : str :=
  match items with
  | [] => []
  | [x] => x
  | x :: rest => x ++ sep ++ str_join sep rest
  end.

(** [str(n)] for a non-negative integer. *)
Definition str_of_nat (n : nat) : str :=
  py (NilEmpty.string_of_uint (Nat.to_uint n)).

(** Comparison of two strings, character by character ([a <= b]). *)
Fixpoint str_leb (a b : str) : bool :=
  match a, b with
  | [], _ => true
  | _ :: _, [] => false
  | x :: a', y :: b' =>
      if nat_of_ascii x <? nat_of_ascii y then true
      else if nat_of_ascii y <? nat_of_ascii x then false
      else str_leb a' b'
  end.

(** [sorted(l)] under the order [leb], written as the insertion of each
    element from the right: equal elements keep their order, as in Python. *)
Fixpoint insert_by {A} (leb : A → A → bool) (x : A) (l : list A) : list A :=
  match l with
  | [] => [x]
  | y :: l' => if leb x y then x :: l else y :: insert_by leb x l'
  end.
Definition sorted {A} (leb : A → A → bool) (l : list A) : list A :=
  foldr (insert_by leb) [] l.

(** ** [sanitize_filename] (TY_To_mp3_or_mp4.py, lines 15-20) *)

(** The double quote, written by its code. *)
Definition dquote : ascii := "034"%char.

(** [invalid_chars]: less-than, greater-than, colon, double quote, slash,
    backslash, vertical bar, question mark, asterisk. *)
Definition invalid_chars : str :=
  py "<>:" ++ [dquote] ++ py "/\|?*".

Definition underscore : ascii := "_"%char.

(** The [for char in invalid_chars] loop: one [replace] per character, each
    applied to the result of the previous one. *)
Definition replace_all (chars : str) (filename : str) : str :=
  fold_left (fun fn char => str_replace char underscore fn) chars filename.

Definition sanitize_filename (filename : str) : str :=
  slice_to 50 (replace_all invalid_chars filename).

(** ** Paths ([os.path], POSIX flavour) *)

Definition sep : ascii := "/"%char.
Definition extsep : ascii := "."%char.

(** [p[i:j]] for [0 <= i]. *)
Definition slice (i j : Z) (p : str) : str :=
  drop (Z.to_nat i) (take (Z.to_nat j) p).

(** [os.path.splitext]: the extension starts at the last dot of the last
    path component, unless that component has only dots before it. The
    library's scan for a character other than a dot between the separator
    and the last dot is the [existsb]. *)
Definition splitext (p : str) : str * str :=
  let sepIndex := rfind sep p in
  let dotIndex := rfind extsep p in
  if (sepIndex <? dotIndex)%Z
     && existsb (fun c => negb (Ascii.eqb c extsep))
                (slice (sepIndex + 1) dotIndex p)
  then (slice_to dotIndex p, slice_from dotIndex p)
  else (p, []).

(** [os.path.join(a, b)]. *)
Definition path_join (a b : str) : str :=
  if startswith sep b then b
  else if bool_decide (a = []) || endswith sep a then a ++ b
  else a ++ [sep] ++ b.

(** [os.path.dirname]. *)
Definition dirname (p : str) : str :=
  let i := (rfind sep p + 1)%Z in
  let head := slice_to i p in
  if negb (bool_decide (head = []))
     && negb (bool_decide (head = replicate (length head) sep))
  then rstrip sep head else head.

(** [os.path.basename]. *)
Definition basename (p : str) : str :=
  slice_from (rfind sep p + 1) p.

(** The part of a path up to its last separator. *)
Definition head_of (p : str) : str := slice_to (rfind sep p + 1) p.

(** What [splitext] returns: no extension and the path itself, or an
    extension that starts at the last dot, after the last separator and
    after a character of the last component that is not a dot. *)
Inductive splitext_spec (p : str) : str → str → Prop :=
| splitext_none :
    splitext (p ++ []) = (p, []) →
    (∀ suf, sep ∉ suf → extsep ∉ suf → splitext (p ++ suf) = (p ++ suf, [])) →
    splitext_spec p p []
| splitext_some b e' :
    p = b ++ extsep :: e' →
    extsep ∉ e' → sep ∉ e' →
    existsb (fun c => negb (Ascii.eqb c extsep))
      (drop (Z.to_nat (rfind sep b + 1)) b) = true →
    splitext_spec p b (extsep :: e').

(** [os.path.exists] on a file system given by the set of existing paths. *)
Definition path_exists (fs : gset str) (p : str) : bool :=
  bool_decide (p ∈ fs).

(** ** [ensure_unique_filename] (TY_To_mp3_or_mp4.py, lines 22-30) *)

(** The candidate the loop builds for a counter value:
    [f"{base}_{counter}{ext}"]. *)
Definition numbered (base ext : str) (counter : nat) : str :=
  base ++ py "_" ++ str_of_nat counter ++ ext.

(** The [while os.path.exists(new_filepath)] loop; [fuel] bounds the number
    of tests, and [None] stands for a loop that has not ended within it. *)
Fixpoint ensure_unique_loop (fuel : nat) (fs : gset str) (base ext : str)
    (counter : nat) (new_filepath : str) : option str :=
  match fuel with
  | 0 => None
  | S fuel' =>
      if path_exists fs new_filepath
      then ensure_unique_loop fuel' fs base ext (counter + 1)
             (numbered base ext counter)
      else Some new_filepath
  end.

Definition ensure_unique_filename_fuel (fuel : nat) (fs : gset str)
    (filepath : str) : option str :=
  let '(base, ext) := splitext filepath in
  ensure_unique_loop fuel fs base ext 1 filepath.

(** On a file system with [size fs] paths the loop needs at most
    [size fs + 2] tests (shown in Part II), so this is the function. *)
Definition ensure_unique_filename (fs : gset str) (filepath : str)
    : option str :=
  ensure_unique_filename_fuel (size fs + 2) fs filepath.


(** ** The stream catalogue of the resolver library

    The library (pytubefix) is not part of the repository; what the scripts
    use of it is modelled here. A stream is progressive (audio and video in
    one file) or adaptive, and an adaptive stream carries video only or
    audio only. [resolution] and [abr] are the library's labels, such as
    720p and 128kbps, and are absent where the library knows none. *)

Inductive kind := Progressive | VideoOnly | AudioOnly.

Record Stream := {
  itag : nat;
  stream_kind : kind;
  subtype : str;
  resolution : option str;
  abr : option str;
  default_filename : str
}.

Global Instance kind_eq_dec : EqDecision kind.
Proof. solve_decision. Defined.

Global Instance Stream_eq_dec : EqDecision Stream.
Proof. solve_decision. Defined.

Definition is_progressive (s : Stream) : bool :=
  match stream_kind s with Progressive => true | _ => false end.
Definition is_adaptive (s : Stream) : bool := negb (is_progressive s).
Definition includes_audio_track (s : Stream) : bool :=
  match stream_kind s with VideoOnly => false | _ => true end.
Definition includes_video_track (s : Stream) : bool :=
  match stream_kind s with AudioOnly => false | _ => true end.

(** The keyword arguments of [streams.filter] that the scripts pass. *)
Definition only_audio (s : Stream) : bool :=
  includes_audio_track s && negb (includes_video_track s).
Definition only_video (s : Stream) : bool :=
  includes_video_track s && negb (includes_audio_track s).
Definition file_extension (ext : str) (s : Stream) : bool :=
  bool_decide (subtype s = ext).
(** [resolution=r]: an empty [r] is no criterion at all. *)
Definition resolution_is (r : str) (s : Stream) : bool :=
  match r with
  | [] => true
  | _ => bool_decide (resolution s = Some r)
  end.

Definition streams_filter (p : Stream → bool) (l : list Stream)
    : list Stream :=
  List.filter p l.

(** [first()]: the first stream of the query, or [None]. *)
Definition first (l : list Stream) : option Stream := head l.

(** [desc()]: the query in reverse order. *)
Definition desc (l : list Stream) : list Stream := reverse l.

(** [int("".join(filter(str.isdigit, label)))], which raises [ValueError]
    (here [None]) on a label without a digit. *)
Definition isdigit (c : ascii) : bool :=
  (48 <=? nat_of_ascii c) && (nat_of_ascii c <=? 57).
Definition digit_value (c : ascii) : N := N.of_nat (nat_of_ascii c - 48).
Definition int_of_digits (ds : str) : option N :=
  match ds with
  | [] => None
  | _ => Some (fold_left (fun acc d => (10 * acc + digit_value d)%N) ds 0%N)
  end.
Definition int_key (label : str) : option N :=
  int_of_digits (List.filter isdigit label).

(** The integer a label stands for, 0 where it has none. *)
Definition label_value (label : option str) : N :=
  match label with
  | Some l => default 0%N (int_key l)
  | None => 0%N
  end.

(** [order_by(attribute)]: the streams that have the attribute, sorted by
    the integer in its label; when some label has no digit the library
    falls back to the order of the labels as strings. *)
Definition has_attribute (attr : Stream → option str) (s : Stream) : bool :=
  bool_decide (is_Some (attr s)).

(** Every label of the attribute has a digit: [int] raises on none. *)
Definition numeric_labels (attr : Stream → option str) (l : list Stream)
    : bool :=
  forallb (fun s => bool_decide (is_Some (attr s ≫= int_key)))
    (List.filter (has_attribute attr) l).

Definition order_by (attr : Stream → option str) (fmt_streams : list Stream)
    : list Stream :=
  let has := List.filter (has_attribute attr) fmt_streams in
  if numeric_labels attr fmt_streams
  then sorted (fun a b => (label_value (attr a) <=? label_value (attr b))%N)
         has
  else sorted (fun a b => str_leb (default [] (attr a)) (default [] (attr b)))
         has.

(** ** [get_available_resolutions] (TY_To_mp3_or_mp4.py, lines 32-38),
    on the catalogue [yt.streams] *)

Definition adaptive_mp4_video (s : Stream) : bool :=
  is_adaptive s && file_extension (py "mp4") s && only_video s.

(** [stream.resolution for stream in video_streams if stream.resolution]:
    [None] and the empty label are both false. *)
Definition truthy_resolution (s : Stream) : option str :=
  match resolution s with
  | Some [] => None
  | r => r
  end.

(** [set(...)]: the distinct labels. *)
Definition distinct (l : list str) : list str := remove_dups l.

(** [sorted(..., reverse=True)] on strings. *)
Definition sorted_reverse (l : list str) : list str :=
  sorted (fun a b => str_leb b a) l.

Definition available_resolutions (streams : list Stream) : list str :=
  let video_streams :=
    desc (order_by resolution (streams_filter adaptive_mp4_video streams)) in
  sorted_reverse (distinct (omap truthy_resolution video_streams)).

(** ** The stream choices of [download_mp4], [download_mp3] and
    [download_youtube] *)

(** TY_To_mp3_or_mp4.py, lines 72-74. *)
Definition select_video (streams : list Stream) (selected_resolution : str)
    : option Stream :=
  first (streams_filter
           (fun s => adaptive_mp4_video s && resolution_is selected_resolution s)
           streams).

(** TY_To_mp3_or_mp4.py, lines 81-83: [adaptive=True, only_audio=True]. *)
Definition adaptive_audio (s : Stream) : bool :=
  is_adaptive s && only_audio s.

Definition select_audio (streams : list Stream) : option Stream :=
  first (desc (order_by abr (streams_filter adaptive_audio streams))).

(** TY_To_mp3_or_mp4.py, line 140. *)
Definition select_mp3_audio (streams : list Stream) : option Stream :=
  first (desc (order_by abr (streams_filter only_audio streams))).

(** Link_to_YT.py, line 9: [progressive=True, file_extension='mp4']. *)
Definition progressive_mp4 (s : Stream) : bool :=
  is_progressive s && file_extension (py "mp4") s.

Definition select_progressive_mp4 (streams : list Stream) : option Stream :=
  first (desc (order_by resolution
                 (streams_filter progressive_mp4 streams))).

(** Link_to_YT.py, line 13. *)
Definition select_first_audio (streams : list Stream) : option Stream :=
  first (streams_filter only_audio streams).


(** ** Exceptions *)

Inductive exn_class :=
| Exception | OSError | URLError | FileNotFoundError | PermissionError
| CalledProcessError | UnboundLocalError | AttributeError | EOFError.

Global Instance exn_class_eq_dec : EqDecision exn_class.
Proof. solve_decision. Defined.

(** An exception: its class and its message; for [CalledProcessError] the
    message is the captured [stderr]. *)
Record exn := Exn { exn_cls : exn_class; exn_msg : str }.

(** [c] is [d] or derives from it. *)
Definition subclass (c d : exn_class) : bool :=
  match d with
  | Exception => true
  | OSError =>
      match c with
      | OSError | URLError | FileNotFoundError | PermissionError => true
      | _ => false
      end
  | _ => bool_decide (c = d)
  end.

Definition isinstance (e : exn) (c : exn_class) : bool :=
  subclass (exn_cls e) c.

(** ** The world of a job: files, console, local variables, trace *)

Inductive event :=
| EvPrint (line : str)
| EvInput (prompt : str)
| EvRun (cmd : list str)
| EvMakedirs (path : str)
| EvYouTube (url : str)
| EvStreams
| EvTitle
| EvDownload (s : Stream) (path : str)
| EvAudioClip (src dst : str)
| EvRemove (path : str).

Record world := World {
  w_fs : gset str;
  w_stdin : list str;
  w_locals : gmap string str;
  w_trace : list event
}.

(** What the surroundings answer to the external actions of a job. *)

Inductive res (A : Type) := Ok (a : A) | Err (e : exn).
Arguments Ok {A} a.
Arguments Err {A} e.

(** [subprocess.run]: the process ran and ended with a return code, having
    written [stderr] and created some files, or it could not be started. *)
Inductive run_result :=
| Completed (returncode : Z) (stderr : str) (created : gset str)
| SpawnError (e : exn).

(** [stream.download]: the file is there, or an exception, with or without
    a partial file left. *)
Inductive download_result :=
| Downloaded
| DownloadError (e : exn) (partial : bool).

(** The object [YouTube(url)]: its catalogue and its title are fetched when
    they are read, and either read can fail. *)
Record YouTube := { yt_streams : res (list Stream); yt_title : res str }.

Record env := {
  env_home : str;
  env_cwd : str;
  env_run : list str → run_result;
  env_makedirs_fails : str → bool;
  env_youtube : str → res YouTube;
  env_download : Stream → str → download_result;
  env_remove_fails : str → bool;
  env_audio_clip : str → str → option exn
}.

(** ** The monad of jobs *)

Inductive outcome (A : Type) :=
| Ret (a : A)
| Raise (e : exn)
| Diverge.
Arguments Ret {A} a.
Arguments Raise {A} e.
Arguments Diverge {A}.

Definition M (A : Type) : Type := world → outcome A * world.

Definition ret {A} (a : A) : M A := fun w => (Ret a, w).

Definition bind {A B} (m : M A) (k : A → M B) : M B :=
  fun w =>
    match m w with
    | (Ret a, w') => k a w'
    | (Raise e, w') => (Raise e, w')
    | (Diverge, w') => (Diverge, w')
    end.

Definition raise {A} (e : exn) : M A := fun w => (Raise e, w).

Notation "'do' x <- m ; k" := (bind m (fun x => k))
  (at level 10, x name, m at level 100, k at level 200, only parsing).
Notation "m ;;; k" := (bind m (fun _ => k))
  (at level 100, k at level 200, right associativity, only parsing).

(** [try: body except C1: h1 except C2: h2 ...]: the first handler whose
    class the exception is an instance of runs; without one the exception
    goes on. *)
Fixpoint find_handler {A} (e : exn)
    (handlers : list (exn_class * (exn → M A))) : option (M A) :=
  match handlers with
  | [] => None
  | (c, h) :: rest =>
      if isinstance e c then Some (h e) else find_handler e rest
  end.

Definition try_except {A} (body : M A)
    (handlers : list (exn_class * (exn → M A))) : M A :=
  fun w =>
    match body w with
    | (Raise e, w') =>
        match find_handler e handlers with
        | Some h => h w'
        | None => (Raise e, w')
        end
    | r => r
    end.

(** [try: body finally: final]: [final] runs on every way out of [body];
    an exception of [final] replaces the outcome of [body]. *)
Definition try_finally {A} (body : M A) (final : M unit) : M A :=
  fun w =>
    match body w with
    | (Diverge, w') => (Diverge, w')
    | (r, w') =>
        match final w' with
        | (Ret _, w'') => (r, w'')
        | (Raise e, w'') => (Raise e, w'')
        | (Diverge, w'') => (Diverge, w'')
        end
    end.

(** A call of a function: it starts with no local variable bound, and its
    local variables are gone when it is left. *)
Definition call {A} (body : M A) : M A :=
  fun w =>
    let '(r, w') :=
      body {| w_fs := w_fs w; w_stdin := w_stdin w; w_locals := ∅;
              w_trace := w_trace w |} in
    (r, {| w_fs := w_fs w'; w_stdin := w_stdin w'; w_locals := w_locals w;
           w_trace := w_trace w' |}).

(** *** Primitive actions *)

Definition emit (ev : event) : M unit :=
  fun w => (Ret tt, {| w_fs := w_fs w; w_stdin := w_stdin w;
                       w_locals := w_locals w;
                       w_trace := w_trace w ++ [ev] |}).

Definition print (line : str) : M unit := emit (EvPrint line).

Definition add_files (ps : gset str) : M unit :=
  fun w => (Ret tt, {| w_fs := w_fs w ∪ ps; w_stdin := w_stdin w;
                       w_locals := w_locals w; w_trace := w_trace w |}).

Definition del_file (p : str) : M unit :=
  fun w => (Ret tt, {| w_fs := w_fs w ∖ {[p]}; w_stdin := w_stdin w;
                       w_locals := w_locals w; w_trace := w_trace w |}).

(** Assignment to a local variable, and its use: a variable that was never
    assigned raises [UnboundLocalError]. *)
Definition set_local (name : string) (v : str) : M unit :=
  fun w => (Ret tt, {| w_fs := w_fs w; w_stdin := w_stdin w;
                       w_locals := <[name := v]> (w_locals w);
                       w_trace := w_trace w |}).

Definition unbound (name : string) : exn :=
  Exn UnboundLocalError
    (py "cannot access local variable '" ++ py name
     ++ py "' where it is not associated with a value").

Definition get_local (name : string) : M str :=
  fun w =>
    match w_locals w !! name with
    | Some v => (Ret v, w)
    | None => (Raise (unbound name), w)
    end.

Definition os_path_exists (p : str) : M bool :=
  fun w => (Ret (path_exists (w_fs w) p), w).

(** [os.remove]. *)
Definition os_remove (e : env) (p : str) : M unit :=
  emit (EvRemove p) ;;;
  do present <- os_path_exists p;
  if negb present then raise (Exn FileNotFoundError p)
  else if env_remove_fails e p then raise (Exn PermissionError p)
  else del_file p.

(** [os.makedirs(path, exist_ok=True)]. *)
Definition os_makedirs (e : env) (p : str) : M unit :=
  emit (EvMakedirs p) ;;;
  if env_makedirs_fails e p then raise (Exn OSError p)
  else add_files {[p]}.

(** [subprocess.run(cmd, check=True, capture_output=True)]. *)
Definition subprocess_run (e : env) (cmd : list str) : M unit :=
  emit (EvRun cmd) ;;;
  match env_run e cmd with
  | Completed returncode stderr created =>
      add_files created ;;;
      if (returncode =? 0)%Z then ret tt
      else raise (Exn CalledProcessError stderr)
  | SpawnError ex => raise ex
  end.

Definition lift_res {A} (r : res A) : M A :=
  match r with
  | Ok a => ret a
  | Err ex => raise ex
  end.

(** [YouTube(url)], [yt.streams], [yt.title]. *)
Definition new_YouTube (e : env) (url : str) : M YouTube :=
  emit (EvYouTube url) ;;; lift_res (env_youtube e url).
Definition get_streams (yt : YouTube) : M (list Stream) :=
  emit EvStreams ;;; lift_res (yt_streams yt).
Definition get_title (yt : YouTube) : M str :=
  emit EvTitle ;;; lift_res (yt_title yt).

(** [stream.download(output_path, filename)]; it returns the path of the
    file. Without [filename] the stream's own file name is used. *)
Definition download (e : env) (s : Stream) (output_path : str)
    (filename : option str) : M str :=
  let file_path :=
    path_join output_path (default (default_filename s) filename) in
  emit (EvDownload s file_path) ;;;
  match env_download e s file_path with
  | Downloaded => add_files {[file_path]} ;;; ret file_path
  | DownloadError ex partial =>
      (if partial then add_files {[file_path]} else ret tt) ;;; raise ex
  end.

(** [stream.download(...)] where [stream] is the result of [first()], which
    is [None] for an empty query. *)
Definition download_of (e : env) (stream : option Stream) (output_path : str)
    (filename : option str) : M str :=
  match stream with
  | Some s => download e s output_path filename
  | None =>
      raise (Exn AttributeError
               (py "'NoneType' object has no attribute 'download'"))
  end.

(** [input(prompt)]: the next line of the standard input, [EOFError] at its
    end. *)
Definition input (prompt : str) : M str :=
  fun w =>
    let w1 := {| w_fs := w_fs w; w_stdin := tail (w_stdin w);
                 w_locals := w_locals w;
                 w_trace := w_trace w ++ [EvInput prompt] |} in
    match w_stdin w with
    | line :: _ => (Ret line, w1)
    | [] => (Raise (Exn EOFError (py "EOF when reading a line")), w1)
    end.

(** ** The jobs of TY_To_mp3_or_mp4.py *)

(** [check_ffmpeg] (lines 7-13). *)
Definition ffmpeg_version_cmd : list str := [py "ffmpeg"; py "-version"].

Definition check_ffmpeg (e : env) : M bool :=
  try_except
    (subprocess_run e ffmpeg_version_cmd ;;; ret true)
    [ (CalledProcessError, fun _ => ret false);
      (FileNotFoundError, fun _ => ret false) ].

(** [get_available_resolutions(yt)] (lines 32-38). *)
Definition get_available_resolutions (yt : YouTube) : M (list str) :=
  do streams <- get_streams yt;
  ret (available_resolutions streams).

(** [os.path.join(Path.home(), "Downloads", "YouTube")]. *)
Definition default_output_dir (e : env) : str :=
  path_join (path_join (env_home e) (py "Downloads")) (py "YouTube").

(** [ensure_unique_filename] on the files of the world. *)
Definition ensure_unique_filename_now (filepath : str) : M str :=
  fun w =>
    match ensure_unique_filename (w_fs w) filepath with
    | Some p => (Ret p, w)
    | None => (Diverge, w)
    end.

(** The prompt of lines 65-69: [fuel] bounds the number of lines read. It is
    called with one more than the number of lines of the standard input,
    and the read after the last line raises [EOFError]. *)
Fixpoint choose_resolution (fuel : nat) (resolutions : list str) : M str :=
  match fuel with
  | 0 => fun w => (Diverge, w)
  | S fuel' =>
      do line <- input (py "Choose a resolution (e.g., 720p): ");
      let selected_resolution := lower line in
      if bool_decide (selected_resolution ∈ resolutions)
      then ret selected_resolution
      else
        print (py "Invalid resolution. Please choose from: "
               ++ str_join (py ", ") resolutions) ;;;
        choose_resolution fuel' resolutions
  end.

Definition prompt_resolution (resolutions : list str) : M str :=
  fun w => choose_resolution (S (length (w_stdin w))) resolutions w.

(** [f"{x}"] for an optional label. *)
Definition fmt (x : option str) : str := default (py "None") x.

Definition merge_cmd (video_file audio_file final_file : str) : list str :=
  [ py "ffmpeg"; py "-y"; py "-i"; video_file; py "-i"; audio_file;
    py "-c:v"; py "copy"; py "-c:a"; py "mp3"; py "-b:a"; py "192k";
    final_file ].

(** The body of the [for temp_file in ...] loop of lines 120-125, also the
    [finally] block of lines 167-171. *)
Definition remove_temp (e : env) (temp_file : str) : M unit :=
  do present <- os_path_exists temp_file;
  if present then
    try_except (os_remove e temp_file)
      [ (OSError, fun _ =>
           print (py "Warning: Could not delete temporary file "
                  ++ temp_file)) ]
  else ret tt.

(** [download_mp4] (lines 40-125). *)
Definition download_mp4 (e : env) (url : str) (output_dir : option str)
    : M unit :=
  call (
    do ffmpeg <- check_ffmpeg e;
    if negb ffmpeg then
      print (py "Error: FFmpeg is not installed or not in PATH. Please install FFmpeg.")
    else
    let output_dir := default (default_output_dir e) output_dir in
    os_makedirs e output_dir ;;;
    do yt <- try_except
               (do yt <- new_YouTube e url; ret (Some yt))
               [ (URLError, fun _ =>
                    print (py "Error: Invalid URL or network issue.") ;;;
                    ret None) ];
    match yt with
    | None => ret tt
    | Some yt =>
    do resolutions <- get_available_resolutions yt;
    match resolutions with
    | [] => print (py "Error: No suitable video streams found.")
    | _ =>
    print (py "Available resolutions: " ++ str_join (py ", ") resolutions) ;;;
    do selected_resolution <- prompt_resolution resolutions;
    do streams <- get_streams yt;
    match select_video streams selected_resolution with
    | None =>
        print (py "Error: No video stream found for " ++ selected_resolution
               ++ py ".")
    | Some video_stream =>
    do streams <- get_streams yt;
    match select_audio streams with
    | None => print (py "Error: No suitable audio stream found.")
    | Some audio_stream =>
    let video_file := path_join output_dir (py "video_temp.mp4") in
    let audio_file := path_join output_dir (py "audio_temp.m4a") in
    do title <- get_title yt;
    do final_file <- ensure_unique_filename_now
                       (path_join output_dir
                          (sanitize_filename title ++ py ".mp4"));
    try_finally
      (try_except
         (print (py "Downloading video: " ++ fmt (resolution video_stream)) ;;;
          download e video_stream output_dir (Some (py "video_temp.mp4")) ;;;
          print (py "Downloading audio: " ++ fmt (abr audio_stream)) ;;;
          download e audio_stream output_dir (Some (py "audio_temp.m4a")) ;;;
          subprocess_run e (merge_cmd video_file audio_file final_file) ;;;
          print (py "Download and merge complete: " ++ final_file))
         [ (CalledProcessError, fun ex =>
              print (py "Error: FFmpeg merge failed: " ++ exn_msg ex));
           (Exception, fun ex =>
              print (py "Error during download/merge: " ++ exn_msg ex)) ])
      (remove_temp e video_file ;;; remove_temp e audio_file)
    end end end end).

Definition convert_cmd (temp_file mp3_file : str) : list str :=
  [ py "ffmpeg"; py "-y"; py "-i"; temp_file;
    py "-c:a"; py "mp3"; py "-b:a"; py "192k"; mp3_file ].

(** [download_mp3] (lines 127-171). The variable [temp_file] is assigned
    inside the [try] block and read in the [finally] block. *)
Definition download_mp3 (e : env) (url : str) (output_dir : option str)
    : M unit :=
  call (
    do ffmpeg <- check_ffmpeg e;
    if negb ffmpeg then
      print (py "Error: FFmpeg is not installed or not in PATH. Please install FFmpeg.")
    else
    let output_dir := default (default_output_dir e) output_dir in
    os_makedirs e output_dir ;;;
    try_finally
      (try_except
         (do yt <- new_YouTube e url;
          do streams <- get_streams yt;
          match select_mp3_audio streams with
          | None => print (py "Error: No suitable audio stream found.")
          | Some stream =>
              do temp_file <- download e stream output_dir None;
              set_local "temp_file" temp_file ;;;
              let '(base, ext) := splitext temp_file in
              do title <- get_title yt;
              do mp3_file <- ensure_unique_filename_now
                               (path_join output_dir
                                  (sanitize_filename title ++ py ".mp3"));
              subprocess_run e (convert_cmd temp_file mp3_file) ;;;
              print (py "Downloaded MP3: " ++ mp3_file)
          end)
         [ (CalledProcessError, fun ex =>
              print (py "Error: FFmpeg conversion failed: " ++ exn_msg ex));
           (URLError, fun _ =>
              print (py "Error: Invalid URL or network issue."));
           (Exception, fun ex =>
              print (py "Error during download/conversion: " ++ exn_msg ex)) ])
      (do temp_file <- get_local "temp_file";
       remove_temp e temp_file)).

(** ** The job of Link_to_YT.py *)

(** [download_youtube] (lines 5-25). The conversion of the [mp3] branch
    (lines 17-19) is one external action. *)
Definition audio_clip (e : env) (src dst : str) : M unit :=
  emit (EvAudioClip src dst) ;;;
  match env_audio_clip e src dst with
  | None => add_files {[dst]}
  | Some ex => raise ex
  end.

Definition download_youtube (e : env) (url : str) (output_format : str)
    : M unit :=
  call (
    try_except
      (do yt <- new_YouTube e url;
       if bool_decide (output_format = py "mp4") then
         do streams <- get_streams yt;
         do out_file <- download_of e (select_progressive_mp4 streams)
                          (env_cwd e) None;
         print (py "Downloaded MP4: " ++ out_file)
       else if bool_decide (output_format = py "mp3") then
         do streams <- get_streams yt;
         do out_file <- download_of e (select_first_audio streams)
                          (env_cwd e) None;
         let mp3_file := (splitext out_file).1 ++ py ".mp3" in
         audio_clip e out_file mp3_file ;;;
         os_remove e out_file ;;;
         print (py "Downloaded MP3: " ++ mp3_file)
       else print (py "Unsupported format. Use 'mp4' or 'mp3'."))
      [ (Exception, fun ex => print (py "Error: " ++ exn_msg ex)) ]).

(** A job run from a given file system and standard input. *)
Definition start (fs : gset str) (stdin : list str) : world :=
  {| w_fs := fs; w_stdin := stdin; w_locals := ∅; w_trace := [] |}.


(** ** Catalogues and surroundings of the examples *)

Definition video_stream (i : nat) (r : string) : Stream :=
  {| itag := i; stream_kind := VideoOnly; subtype := py "mp4";
     resolution := Some (py r); abr := None;
     default_filename := py "clip.mp4" |}.

Definition audio_stream (i : nat) (sub a : string) : Stream :=
  {| itag := i; stream_kind := AudioOnly; subtype := py sub;
     resolution := None; abr := Some (py a);
     default_filename := py "clip.m4a" |}.

Definition progressive_stream (i : nat) (r : option string) : Stream :=
  {| itag := i; stream_kind := Progressive; subtype := py "mp4";
     resolution := py <$> r; abr := Some (py "96kbps");
     default_filename := py "clip.mp4" |}.

(** Adaptive MP4 video at 1080p, 720p and 480p, and two audio streams. *)
Definition catalogue_3 : list Stream :=
  [ video_stream 137 "1080p"; video_stream 136 "720p";
    video_stream 135 "480p";
    audio_stream 140 "mp4" "128kbps"; audio_stream 251 "webm" "160kbps" ].

(** A catalogue whose only progressive MP4 stream has no resolution label
    (the library knows no label for its itag). *)
Definition catalogue_unlabelled : list Stream :=
  [ progressive_stream 999 None; audio_stream 140 "mp4" "128kbps" ].

Definition catalogue_progressive : list Stream :=
  [ progressive_stream 18 (Some "360p"); progressive_stream 22 (Some "720p");
    video_stream 137 "1080p" ].

(** The catalogue has an adaptive MP4 video-only stream labelled [r]. *)
Definition offers_video (streams : list Stream) (r : str) : Prop :=
  ∃ s, s ∈ streams ∧ adaptive_mp4_video s = true ∧ resolution s = Some r.

(** Surroundings in which everything works, for a video with the given
    catalogue, except what [run] says of the transcoder. *)
Definition surroundings (streams : list Stream)
    (run : list str → run_result) : env :=
  {| env_home := py "/home/user";
     env_cwd := py "/work";
     env_run := run;
     env_makedirs_fails := fun _ => false;
     env_youtube := fun _ =>
       Ok {| yt_streams := Ok streams; yt_title := Ok (py "My clip") |};
     env_download := fun _ _ => Downloaded;
     env_remove_fails := fun _ => false;
     env_audio_clip := fun _ _ => None |}.

(** A transcoder that works. *)
Definition run_ok (cmd : list str) : run_result := Completed 0 [] ∅.


(** Surroundings without network: [YouTube(url)] raises [URLError]. *)
Definition offline : env :=
  {| env_home := py "/home/user";
     env_cwd := py "/work";
     env_run := run_ok;
     env_makedirs_fails := fun _ => false;
     env_youtube := fun _ => Err (Exn URLError (py "unreachable"));
     env_download := fun _ _ => Downloaded;
     env_remove_fails := fun _ => false;
     env_audio_clip := fun _ _ => None |}.

(** ** Notions of the statements about jobs *)


(** The transcoder is absent or not invocable: [ffmpeg -version] does not
    end with return code 0, be it that the command is not found, that it
    cannot be started for another reason (a file without the right to
    execute it), or that it runs and ends with a failure. *)
Definition transcoder_unavailable (e : env) : Prop :=
  match env_run e ffmpeg_version_cmd with
  | SpawnError _ => True
  | Completed returncode _ _ => returncode ≠ 0%Z
  end.



Definition transcoder_available (e : env) : Prop :=
  ∃ stderr created,
    env_run e ffmpeg_version_cmd = Completed 0 stderr created.

(** A computation only adds to the trace. *)
Definition extends {A} (m : M A) : Prop :=
  ∀ w, w_trace w `prefix_of` w_trace (m w).2.

(** A transcoder that passes the check and fails every other run with
    return code 1, leaving the files [left] behind. *)
Definition run_merge_fails (left : gset str) (cmd : list str) : run_result :=
  if bool_decide (cmd = ffmpeg_version_cmd) then Completed 0 [] ∅
  else Completed 1 (py "Conversion failed!") left.

(** Surroundings in which the merge fails after the transcoder has opened
    its output file, and the temporary video file cannot be deleted. *)
Definition leftovers : env :=
  {| env_home := py "/home/user";
     env_cwd := py "/work";
     env_run := run_merge_fails {[ py "out/My clip.mp4" ]};
     env_makedirs_fails := fun _ => false;
     env_youtube := fun _ =>
       Ok {| yt_streams := Ok catalogue_3; yt_title := Ok (py "My clip") |};
     env_download := fun _ _ => Downloaded;
     env_remove_fails := fun p => bool_decide (p = py "out/video_temp.mp4");
     env_audio_clip := fun _ _ => None |}.

(** ** The scripts' entry blocks *)

(** [s.strip()]: white space is removed at both ends. *)
Definition isspace (c : ascii) : bool :=
  let n := nat_of_ascii c in
  ((9 <=? n) && (n <=? 13)) || ((28 <=? n) && (n <=? 32)).

Fixpoint lstrip (s : str) : str :=
  match s with
  | c :: s' => if isspace c then lstrip s' else s
  | [] => []
  end.

Definition strip (s : str) : str := reverse (lstrip (reverse (lstrip s))).

(** The block under [if __name__ == "__main__"] of TY_To_mp3_or_mp4.py
    (lines 173-195). Its [except KeyboardInterrupt] has no counterpart here:
    none of the modelled actions raises that exception. *)
Definition ty_main (e : env) : M unit :=
  do url <- input (py "Enter YouTube URL: ");
  do fmt_line <- input (py "Choose format (mp4/mp3): ");
  let fmt := lower fmt_line in
  do dir_line <-
    input (py "Enter output directory (press Enter for default ~/Downloads/YouTube): ");
  let output_dir := strip dir_line in
  do output_dir <-
    (if bool_decide (output_dir = []) then ret None
     else
       try_except
         (os_makedirs e output_dir ;;; ret (Some output_dir))
         [ (OSError, fun _ =>
              print (py "Error: Invalid output directory. Using default ~/Downloads/YouTube.") ;;;
              ret None) ]);
  if bool_decide (fmt = py "mp4") then download_mp4 e url output_dir
  else if bool_decide (fmt = py "mp3") then download_mp3 e url output_dir
  else print (py "Error: Invalid format. Please choose 'mp4' or 'mp3'.").

(** The block under [if __name__ == "__main__"] of Link_to_YT.py
    (lines 27-30). *)
Definition link_main (e : env) : M unit :=
  do url <- input (py "Enter YouTube URL: ");
  do fmt_line <- input (py "Choose format (mp4/mp3): ");
  download_youtube e url (lower fmt_line).

(** ** More notions of the statements about jobs *)

(** A computation takes every world to one related to it by [R]. *)
Definition respects (R : world → world → Prop) {A} (m : M A) : Prop :=
  ∀ w, R w (m w).2.

(** The files of [w] outside [temps] are files of [w']. *)
Definition same_files_but (temps : gset str) (w w' : world) : Prop :=
  ∀ p, p ∈ w_fs w → p ∉ temps → p ∈ w_fs w'.

(** The local variables of [w'] are those of [w]. *)
Definition same_locals (w w' : world) : Prop := w_locals w' = w_locals w.

(** A computation ends: it returns or raises. *)
Definition ends {A} (m : M A) : Prop :=
  ∀ w, (m w).1 ≠ Diverge.


(** Surroundings in which the video is reached and its catalogue cannot be
    read. *)
Definition broken_catalogue : env :=
  {| env_home := py "/home/user";
     env_cwd := py "/work";
     env_run := run_ok;
     env_makedirs_fails := fun _ => false;
     env_youtube := fun _ =>
       Ok {| yt_streams := Err (Exn URLError (py "timed out"));
             yt_title := Ok (py "My clip") |};
     env_download := fun _ _ => Downloaded;
     env_remove_fails := fun _ => false;
     env_audio_clip := fun _ _ => None |}.

(** A catalogue with video only. *)
Definition catalogue_silent : list Stream :=
  [ video_stream 137 "1080p"; video_stream 136 "720p" ].

(** Surroundings in which the conversion of Link_to_YT.py fails. *)
Definition no_codec (streams : list Stream) : env :=
  {| env_home := py "/home/user";
     env_cwd := py "/work";
     env_run := run_ok;
     env_makedirs_fails := fun _ => false;
     env_youtube := fun _ =>
       Ok {| yt_streams := Ok streams; yt_title := Ok (py "My clip") |};
     env_download := fun _ _ => Downloaded;
     env_remove_fails := fun _ => false;
     env_audio_clip := fun _ _ =>
       Some (Exn Exception (py "no codec")) |}.

(** Surroundings in which no directory can be made. *)
Definition read_only (streams : list Stream) : env :=
  {| env_home := py "/home/user";
     env_cwd := py "/work";
     env_run := run_ok;
     env_makedirs_fails := fun p => bool_decide (p = py "/nowhere");
     env_youtube := fun _ =>
       Ok {| yt_streams := Ok streams; yt_title := Ok (py "My clip") |};
     env_download := fun _ _ => Downloaded;
     env_remove_fails := fun _ => false;
     env_audio_clip := fun _ _ => None |}.

(** A transcoder that works and whose merge writes the files [out]. *)
Definition run_merge_writes (out : gset str) (cmd : list str) : run_result :=
  if bool_decide (cmd = ffmpeg_version_cmd) then Completed 0 [] ∅
  else Completed 0 [] out.

(** The character at position [i] of a sanitised name, from the one of the
    title. *)
Definition sanitize_char (c : ascii) : ascii :=
  if bool_decide (c ∈ invalid_chars) then underscore else c.

(** * Part II: properties *)

(** ** Strings *)

Lemma str_replace_length old new s :
  length (str_replace old new s) = length s.
Proof. unfold str_replace. by rewrite length_map. Qed.

Lemma str_replace_absent old new s : old ∉ s → str_replace old new s = s.
Proof.
  induction s as [|c s IH]; intros Hs; simpl; [done|].
  apply not_elem_of_cons in Hs as [Hne Hs].
  rewrite IH by done.
  destruct (Ascii.eqb_spec c old); congruence.
Qed.

Lemma str_replace_removes old new s :
  new ≠ old → old ∉ str_replace old new s.
Proof.
  intros Hne. induction s as [|c s IH]; simpl.
  - apply not_elem_of_nil.
  - apply not_elem_of_cons. split; [|done].
    destruct (Ascii.eqb_spec c old); congruence.
Qed.

Lemma str_replace_keeps_absent old new c s :
  c ≠ new → c ∉ s → c ∉ str_replace old new s.
Proof.
  intros Hne. induction s as [|d s IH]; simpl; intros Hs.
  - apply not_elem_of_nil.
  - apply not_elem_of_cons in Hs as [Hd Hs].
    apply not_elem_of_cons. split; [|by apply IH].
    destruct (Ascii.eqb d old); congruence.
Qed.

(** ** [sanitize_filename] *)

Example sanitize_example :
  sanitize_filename (py "a/b: what? <me>") = py "a_b_ what_ _me_".
Proof. reflexivity. Qed.

Lemma replace_all_length chars s : length (replace_all chars s) = length s.
Proof.
  revert s. induction chars as [|c chars IH]; intros s; simpl; [done|].
  rewrite IH. apply str_replace_length.
Qed.

Lemma replace_all_keeps_absent chars c s :
  c ≠ underscore → c ∉ s → c ∉ replace_all chars s.
Proof.
  revert s. induction chars as [|d chars IH]; intros s Hc Hs; simpl; [done|].
  apply IH; [done|]. by apply str_replace_keeps_absent.
Qed.

Lemma replace_all_removes chars c s :
  underscore ∉ chars → c ∈ chars → c ∉ replace_all chars s.
Proof.
  revert s. induction chars as [|d chars IH]; intros s Hu Hc; simpl.
  - by apply elem_of_nil in Hc.
  - apply not_elem_of_cons in Hu as [Hud Hu].
    destruct (decide (c = d)) as [->|Hne].
    + apply replace_all_keeps_absent; [congruence|].
      apply str_replace_removes. congruence.
    + apply elem_of_cons in Hc as [?|Hc]; [done|]. by apply IH.
Qed.

Lemma replace_all_clean chars s :
  (∀ c, c ∈ chars → c ∉ s) → replace_all chars s = s.
Proof.
  revert s. induction chars as [|d chars IH]; intros s Hs; simpl; [done|].
  rewrite str_replace_absent by (apply Hs; left).
  apply IH. intros c Hc. apply Hs. by right.
Qed.

Lemma underscore_valid : underscore ∉ invalid_chars.
Proof.
  apply (bool_decide_unpack _). vm_compute. exact I.
Qed.

Lemma sanitize_filename_clean s c :
  c ∈ invalid_chars → c ∉ sanitize_filename s.
Proof.
  intros Hc Hin. unfold sanitize_filename, slice_to in Hin.
  apply elem_of_take in Hin as (i & Hi & _).
  apply list_elem_of_lookup_2 in Hi.
  by apply (replace_all_removes invalid_chars c s underscore_valid).
Qed.

(** C5. Whatever the title, the sanitised file name has at most 50
    characters and holds none of the nine characters of [invalid_chars]:
    less-than, greater-than, colon, double quote, slash, backslash, vertical
    bar, question mark and asterisk. *)
Theorem sanitize_filename_safe (s : str) :
  length (sanitize_filename s) ≤ 50 ∧
  (∀ c, c ∈ invalid_chars → c ∉ sanitize_filename s) ∧
  invalid_chars
  = [ "<"; ">"; ":"; dquote; "/"; "\"; "|"; "?"; "*" ]%char.
Proof.
  split; [|split].
  - unfold sanitize_filename, slice_to. rewrite length_take. lia.
  - intros c. apply sanitize_filename_clean.
  - reflexivity.
Qed.

(** C10. Sanitising a sanitised name changes nothing. *)
Theorem sanitize_filename_idempotent (s : str) :
  sanitize_filename (sanitize_filename s) = sanitize_filename s.
Proof.
  unfold sanitize_filename at 1.
  rewrite replace_all_clean by (intros c; apply sanitize_filename_clean).
  unfold sanitize_filename, slice_to.
  apply take_ge. rewrite length_take. lia.
Qed.

(** ** [rfind] *)

Lemma rfind_bounds c s : (-1 ≤ rfind c s < Z.of_nat (length s))%Z.
Proof.
  induction s as [|x s IH]; simpl; [lia|].
  destruct (Z.leb_spec 0 (rfind c s)); [lia|].
  destruct (Ascii.eqb x c); lia.
Qed.

Lemma rfind_absent c s : c ∉ s → rfind c s = (-1)%Z.
Proof.
  induction s as [|x s IH]; intros Hs; simpl; [done|].
  apply not_elem_of_cons in Hs as [Hne Hs]. rewrite IH by done. simpl.
  destruct (Ascii.eqb_spec x c); congruence.
Qed.

Lemma rfind_present c s : c ∈ s → (0 ≤ rfind c s)%Z.
Proof.
  induction s as [|x s IH]; intros Hs; simpl.
  - by apply elem_of_nil in Hs.
  - destruct (Z.leb_spec 0 (rfind c s)); [lia|].
    apply elem_of_cons in Hs as [->|Hs].
    + by rewrite Ascii.eqb_refl.
    + apply IH in Hs. lia.
Qed.

Lemma rfind_app_absent c s t : c ∉ t → rfind c (s ++ t) = rfind c s.
Proof.
  intros Ht. induction s as [|x s IH]; simpl.
  - by apply rfind_absent.
  - by rewrite IH.
Qed.

Lemma rfind_app_present c s t :
  (0 ≤ rfind c t)%Z →
  rfind c (s ++ t) = (Z.of_nat (length s) + rfind c t)%Z.
Proof.
  intros Ht. induction s as [|x s IH]; simpl; [lia|].
  rewrite IH. destruct (Z.leb_spec 0 (Z.of_nat (length s) + rfind c t)); lia.
Qed.

Lemma rfind_last c s t :
  c ∉ t → rfind c (s ++ c :: t) = Z.of_nat (length s).
Proof.
  intros Ht. rewrite rfind_app_present; simpl; rewrite (rfind_absent c t Ht);
    simpl; rewrite Ascii.eqb_refl; lia.
Qed.

(** What follows the last occurrence holds no occurrence. *)
Lemma rfind_tail c s :
  (0 ≤ rfind c s)%Z →
  ∃ t, drop (Z.to_nat (rfind c s)) s = c :: t ∧ c ∉ t.
Proof.
  induction s as [|x s IH]; simpl; [lia|].
  destruct (Z.leb_spec 0 (rfind c s)) as [Hr|Hr]; intros Hpos.
  - destruct (IH Hr) as (t & Ht & Hc). exists t. split; [|done].
    replace (Z.to_nat (rfind c s + 1)) with (S (Z.to_nat (rfind c s))) by lia.
    done.
  - destruct (Ascii.eqb_spec x c) as [->|Hne]; [|lia].
    exists s. split; [done|].
    intros Hin. apply rfind_present in Hin. lia.
Qed.

(** ** [splitext] *)

Lemma splitext_app p : (splitext p).1 ++ (splitext p).2 = p.
Proof.
  unfold splitext.
  destruct (_ && _); simpl; [apply take_drop | apply app_nil_r].
Qed.

Lemma sep_extsep : sep ≠ extsep.
Proof. done. Qed.

Lemma splitext_cases p : splitext_spec p (splitext p).1 (splitext p).2.
Proof.
  unfold splitext.
  destruct (Z.ltb_spec (rfind sep p) (rfind extsep p)) as [Hlt|Hge]; simpl.
  - pose proof (rfind_bounds sep p) as Hs.
    pose proof (rfind_bounds extsep p) as Hd.
    destruct (rfind_tail extsep p) as (e' & He & Hdot); [lia|].
    assert (Hp : p = take (Z.to_nat (rfind extsep p)) p ++ extsep :: e')
      by (by rewrite <- He, take_drop).
    set (b := take (Z.to_nat (rfind extsep p)) p) in *.
    assert (Hsepe : sep ∉ e').
    { intros Hin.
      assert (0 ≤ rfind sep (extsep :: e'))%Z as Hpos
        by (apply rfind_present; by right).
      assert (rfind sep (extsep :: e') ≠ 0)%Z as Hnz.
      { simpl. destruct (Z.leb_spec 0 (rfind sep e')); [lia|].
        apply rfind_present in Hin. lia. }
      rewrite Hp in Hlt at 1. rewrite rfind_app_present in Hlt by done.
      assert (length b = Z.to_nat (rfind extsep p)) as Hlen.
      { unfold b. rewrite length_take. lia. }
      lia. }
    assert (Hsepb : rfind sep p = rfind sep b).
    { rewrite Hp at 1. apply rfind_app_absent.
      apply not_elem_of_cons. split; [apply sep_extsep | done]. }
    unfold slice, slice_to, slice_from. fold b.
    destruct (existsb _ _) eqn:Hex; simpl.
    + rewrite He. constructor; try done. by rewrite <- Hsepb.
    + constructor.
      * rewrite app_nil_r. unfold splitext.
        destruct (Z.ltb_spec (rfind sep p) (rfind extsep p)); [|lia].
        unfold slice. fold b. by rewrite Hex.
      * intros suf Hsuf Hesuf. unfold splitext.
        rewrite !rfind_app_absent by done.
        destruct (Z.ltb_spec (rfind sep p) (rfind extsep p)); [|lia].
        unfold slice. rewrite take_app_le by lia. fold b. by rewrite Hex.
  - constructor.
    + rewrite app_nil_r. unfold splitext.
      destruct (Z.ltb_spec (rfind sep p) (rfind extsep p)); [lia|done].
    + intros suf Hsuf Hesuf. unfold splitext.
      rewrite !rfind_app_absent by done.
      destruct (Z.ltb_spec (rfind sep p) (rfind extsep p)); [lia|done].
Qed.

(** The extension holds no separator. *)
Lemma splitext_ext_no_sep p : sep ∉ (splitext p).2.
Proof.
  destruct (splitext_cases p) as [_ _|b e' _ _ Hsep _].
  - apply not_elem_of_nil.
  - apply not_elem_of_cons. split; [apply sep_extsep | done].
Qed.

(** A suffix without dot and separator, put between the root and the
    extension, leaves the extension as it is and lengthens the root. *)
Lemma splitext_insert p suf :
  sep ∉ suf → extsep ∉ suf →
  splitext ((splitext p).1 ++ suf ++ (splitext p).2)
  = ((splitext p).1 ++ suf, (splitext p).2).
Proof.
  intros Hsep Hdot.
  destruct (splitext_cases p) as [_ Hnone|b e' Hp Hdot' Hsep' Hex].
  - rewrite app_nil_r. by apply Hnone.
  - unfold splitext.
    assert (Hd : rfind extsep (b ++ suf ++ extsep :: e')
                 = Z.of_nat (length (b ++ suf))).
    { rewrite app_assoc. by apply rfind_last. }
    assert (Hs : rfind sep (b ++ suf ++ extsep :: e') = rfind sep b).
    { apply rfind_app_absent. rewrite elem_of_app, elem_of_cons.
      intros [?|[?|?]]; [done| by apply sep_extsep |done]. }
    rewrite Hd, Hs.
    pose proof (rfind_bounds sep b) as Hb.
    rewrite length_app.
    destruct (Z.ltb_spec (rfind sep b) (Z.of_nat (length b + length suf)));
      [|lia].
    unfold slice, slice_to, slice_from.
    rewrite Nat2Z.id, <- length_app, app_assoc.
    rewrite take_app_length, drop_app_length.
    rewrite drop_app_le by lia.
    rewrite existsb_app, Hex. done.
Qed.

(** ** [dirname] *)

Lemma dirname_head p q : head_of p = head_of q → dirname p = dirname q.
Proof. unfold dirname, head_of. by intros ->. Qed.

Lemma head_of_app p t : sep ∉ t → head_of (p ++ t) = head_of p.
Proof.
  intros Ht. unfold head_of, slice_to. rewrite rfind_app_absent by done.
  pose proof (rfind_bounds sep p). apply take_app_le. lia.
Qed.

(** ** [str(n)] *)

Lemma string_of_uint_digits d c :
  c ∈ py (NilEmpty.string_of_uint d) → isdigit c = true.
Proof.
  unfold py. induction d; simpl; intros Hc;
    first [ by apply elem_of_nil in Hc
          | apply elem_of_cons in Hc as [->|Hc]; [done | by apply IHd] ].
Qed.

Lemma str_of_nat_digits n c : c ∈ str_of_nat n → isdigit c = true.
Proof. apply string_of_uint_digits. Qed.

Lemma str_of_nat_no_sep n : sep ∉ str_of_nat n.
Proof. intros H. by apply str_of_nat_digits in H. Qed.

Lemma str_of_nat_no_extsep n : extsep ∉ str_of_nat n.
Proof. intros H. by apply str_of_nat_digits in H. Qed.

Lemma py_inj a b : py a = py b → a = b.
Proof.
  unfold py. intros H.
  rewrite <- (string_of_list_ascii_of_string a),
          <- (string_of_list_ascii_of_string b).
  by rewrite H.
Qed.

Lemma str_of_nat_inj n m : str_of_nat n = str_of_nat m → n = m.
Proof.
  unfold str_of_nat. intros H. apply py_inj in H.
  apply DecimalNat.Unsigned.to_uint_inj.
  assert (Some (Nat.to_uint n) = Some (Nat.to_uint m)) as Heq
    by (by rewrite <- !NilEmpty.usu, H).
  by injection Heq.
Qed.

(** ** [ensure_unique_filename] *)

Lemma numbered_inj base ext n m :
  numbered base ext n = numbered base ext m → n = m.
Proof.
  unfold numbered. intros H.
  apply app_inv_head in H. apply app_inv_head in H.
  apply app_inv_tail in H. by apply str_of_nat_inj.
Qed.

(** The suffix the loop inserts holds neither a separator nor a dot. *)
Lemma suffix_no_sep n : sep ∉ py "_" ++ str_of_nat n.
Proof.
  rewrite elem_of_app. intros [H|H].
  - by apply list_elem_of_singleton in H.
  - by apply str_of_nat_no_sep in H.
Qed.

Lemma suffix_no_extsep n : extsep ∉ py "_" ++ str_of_nat n.
Proof.
  rewrite elem_of_app. intros [H|H].
  - by apply list_elem_of_singleton in H.
  - by apply str_of_nat_no_extsep in H.
Qed.

(** Among the candidates numbered [counter], ..., [counter + size fs] one
    is not on the file system. *)
Lemma numbered_fresh (fs : gset str) base ext counter :
  ∃ k, counter ≤ k < counter + (size fs + 1) ∧ numbered base ext k ∉ fs.
Proof.
  set (l := numbered base ext <$> seq counter (size fs + 1)).
  destruct (decide (Forall (λ p, p ∈ fs) l)) as [Hall|Hnot].
  - exfalso.
    assert (NoDup l) as Hnd.
    { apply NoDup_fmap_2; [|apply NoDup_seq].
      intros n m. apply numbered_inj. }
    assert (list_to_set l ⊆ fs) as Hsub.
    { intros p Hp. apply elem_of_list_to_set in Hp.
      by apply (proj1 (Forall_forall _ _) Hall). }
    apply subseteq_size in Hsub.
    rewrite size_list_to_set in Hsub by done.
    unfold l in Hsub. rewrite length_fmap, length_seq in Hsub. lia.
  - apply not_Forall_Exists in Hnot; [|apply _].
    apply Exists_exists in Hnot as (p & Hp & Hfresh).
    apply list_elem_of_fmap in Hp as (k & -> & Hk).
    apply elem_of_seq in Hk. exists k. split; [lia|done].
Qed.

(** With a fresh candidate among the next [n] ones, [n + 1] tests are
    enough: the loop ends. *)
Lemma ensure_unique_loop_ends fs base ext n :
  ∀ fuel counter p,
    (∃ k, counter ≤ k < counter + n ∧ numbered base ext k ∉ fs) →
    n + 1 ≤ fuel →
    is_Some (ensure_unique_loop fuel fs base ext counter p).
Proof.
  induction n as [|n IH]; intros fuel counter p (k & Hk & Hfresh) Hfuel;
    [lia|].
  destruct fuel as [|fuel]; [lia|]. simpl.
  unfold path_exists. case_bool_decide as Hp; [|by eexists].
  destruct (decide (k = counter)) as [->|Hne].
  - destruct fuel as [|fuel]; [lia|]. simpl.
    unfold path_exists. rewrite bool_decide_eq_false_2 by done. by eexists.
  - apply IH; [|lia]. exists k. split; [lia|done].
Qed.

(** What the loop returns: a path that does not exist, which is the path it
    was started with or the first candidate that does not exist. *)
Lemma ensure_unique_loop_result fs base ext :
  ∀ fuel counter p r,
    ensure_unique_loop fuel fs base ext counter p = Some r →
    (r ∉ fs) ∧
    ((r = p) ∨
     (p ∈ fs ∧ ∃ k, counter ≤ k ∧ r = numbered base ext k ∧
                    ∀ j, counter ≤ j < k → numbered base ext j ∈ fs)).
Proof.
  induction fuel as [|fuel IH]; intros counter p r; simpl; [done|].
  unfold path_exists. case_bool_decide as Hp.
  - intros Hr. apply IH in Hr as [Hfresh Hr]. split; [done|].
    right. split; [done|].
    destruct Hr as [->|(Hin & k & Hk & -> & Hbelow)].
    + exists counter. split; [lia|]. split; [done|]. intros j Hj. lia.
    + exists k. split; [lia|]. split; [done|].
      intros j Hj. destruct (decide (j = counter)) as [->|Hne]; [done|].
      apply Hbelow. lia.
  - intros [= <-]. split; [done|]. by left.
Qed.

(** The loop ends on every file system. *)
Lemma ensure_unique_filename_total fs filepath :
  is_Some (ensure_unique_filename fs filepath).
Proof.
  unfold ensure_unique_filename, ensure_unique_filename_fuel.
  destruct (splitext filepath) as [base ext].
  apply (ensure_unique_loop_ends fs base ext (size fs + 1));
    [apply numbered_fresh | lia].
Qed.

(** More tests than needed change nothing. *)
Lemma ensure_unique_loop_more fs base ext :
  ∀ fuel fuel' counter p r,
    ensure_unique_loop fuel fs base ext counter p = Some r →
    fuel ≤ fuel' →
    ensure_unique_loop fuel' fs base ext counter p = Some r.
Proof.
  induction fuel as [|fuel IH]; intros fuel' counter p r; simpl; [done|].
  intros Hr Hle. destruct fuel' as [|fuel']; [lia|]. simpl.
  destruct (path_exists fs p); [|done]. apply IH; [done|lia].
Qed.

Lemma ensure_unique_filename_fuel_more fs filepath fuel r :
  ensure_unique_filename fs filepath = Some r →
  size fs + 2 ≤ fuel →
  ensure_unique_filename_fuel fuel fs filepath = Some r.
Proof.
  unfold ensure_unique_filename, ensure_unique_filename_fuel.
  destruct (splitext filepath) as [base ext].
  apply ensure_unique_loop_more.
Qed.

(** C6. Where nothing exists at the path, the path comes back unchanged
    ([N = 0]). Where the path exists together with the paths numbered 1 to
    [N - 1] and the one numbered [N] does not, the path numbered [N] comes
    back: [base_N.ext]. *)
Theorem ensure_unique_filename_collisions
    (fs : gset str) (filepath base ext : str) (N : nat) :
  splitext filepath = (base, ext) →
  (0 < N → filepath ∈ fs) →
  (∀ k, 1 ≤ k < N → numbered base ext k ∈ fs) →
  match N with 0 => filepath | _ => numbered base ext N end ∉ fs →
  ensure_unique_filename fs filepath
  = Some (match N with
          | 0 => filepath
          | _ => base ++ py "_" ++ str_of_nat N ++ ext
          end).
Proof.
  intros Hsplit Hfile Hbelow Hfresh.
  destruct (ensure_unique_filename_total fs filepath) as [r Hr].
  rewrite Hr. f_equal.
  unfold ensure_unique_filename, ensure_unique_filename_fuel in Hr.
  rewrite Hsplit in Hr.
  apply ensure_unique_loop_result in Hr
    as [Hr [->|(Hin & k & Hk & -> & Hk')]].
  - destruct N as [|N]; [done|]. exfalso. apply Hr, Hfile. lia.
  - destruct N as [|N]; [done|]. fold (numbered base ext (S N)).
    f_equal.
    destruct (Nat.lt_trichotomy k (S N)) as [Hlt|[->|Hgt]]; [|done|].
    + exfalso. apply Hr, Hbelow. lia.
    + exfalso. apply Hfresh, Hk'. lia.
Qed.

(** The scenario of the specification: with [out/video.mp4] and
    [out/video_1.mp4] there, the answer is [out/video_2.mp4]. *)
Lemma ensure_unique_filename_collisions_witness :
  ensure_unique_filename {[ py "out/video.mp4"; py "out/video_1.mp4" ]}
    (py "out/video.mp4")
  = Some (py "out/video_2.mp4").
Proof.
  apply (ensure_unique_filename_collisions
           {[ py "out/video.mp4"; py "out/video_1.mp4" ]}
           (py "out/video.mp4") (py "out/video") (py ".mp4") 2).
  - reflexivity.
  - intros _. apply (bool_decide_unpack _). vm_compute. exact I.
  - intros k Hk. assert (k = 1) as -> by lia.
    apply (bool_decide_unpack _). vm_compute. exact I.
  - apply (bool_decide_unpack _). vm_compute. exact I.
Defined.

(** C9. On every file system the function returns a path; that path does
    not exist, lies in the directory of the given path, has its extension,
    and its root is the root of the given path followed by a suffix. *)
Theorem ensure_unique_filename_fresh (fs : gset str) (filepath : str) :
  ∃ r suffix,
    ensure_unique_filename fs filepath = Some r ∧
    (r ∉ fs) ∧
    dirname r = dirname filepath ∧
    (splitext r).2 = (splitext filepath).2 ∧
    (splitext r).1 = (splitext filepath).1 ++ suffix ∧
    r = (splitext filepath).1 ++ suffix ++ (splitext filepath).2.
Proof.
  destruct (ensure_unique_filename_total fs filepath) as [r Hr].
  pose proof Hr as Hr'.
  unfold ensure_unique_filename, ensure_unique_filename_fuel in Hr'.
  pose proof (splitext_app filepath) as Happ.
  pose proof (splitext_ext_no_sep filepath) as Hext.
  pose proof (splitext_insert filepath) as Hins.
  destruct (splitext filepath) as [base ext] eqn:Hsplit; simpl in *.
  apply ensure_unique_loop_result in Hr'
    as [Hfresh [->|(_ & k & _ & -> & _)]].
  - exists filepath, []. rewrite app_nil_r, Hsplit. simpl.
    by rewrite Happ.
  - exists (numbered base ext k), (py "_" ++ str_of_nat k).
    specialize (Hins _ (suffix_no_sep k) (suffix_no_extsep k)).
    unfold numbered. rewrite <- !app_assoc in *. rewrite Hins.
    repeat split; try done.
    apply dirname_head. rewrite <- Happ.
    rewrite (head_of_app base ext Hext).
    replace (base ++ py "_" ++ str_of_nat k ++ ext)
      with (base ++ ((py "_" ++ str_of_nat k) ++ ext))
      by (by rewrite <- app_assoc).
    apply head_of_app. rewrite elem_of_app.
    intros [H|H]; [by apply suffix_no_sep in H | done].
Qed.

(** ** [sorted] *)

Section sorted_props.
Context {A : Type} (leb : A → A → bool).

Lemma insert_by_perm x l : insert_by leb x l ≡ₚ x :: l.
Proof.
  induction l as [|y l IH]; simpl; [done|].
  destruct (leb x y); [done|].
  rewrite IH. apply Permutation_swap.
Qed.

Lemma sorted_perm l : sorted leb l ≡ₚ l.
Proof.
  induction l as [|x l IH]; simpl; [done|].
  rewrite insert_by_perm. by rewrite IH.
Qed.

Lemma elem_of_sorted x l : x ∈ sorted leb l ↔ x ∈ l.
Proof. by rewrite sorted_perm. Qed.

Hypothesis leb_total : ∀ a b, leb a b = true ∨ leb b a = true.
Hypothesis leb_trans :
  ∀ a b c, leb a b = true → leb b c = true → leb a c = true.

Lemma insert_by_sorted x l :
  StronglySorted (λ a b, leb a b = true) l →
  StronglySorted (λ a b, leb a b = true) (insert_by leb x l).
Proof.
  induction 1 as [|y l Hl IH Hy]; simpl.
  - constructor; constructor.
  - destruct (leb x y) eqn:Hxy.
    + constructor; [by constructor|].
      constructor; [done|].
      eapply Forall_impl; [exact Hy|]. intros z Hz. by eapply leb_trans.
    + constructor; [done|].
      apply Forall_forall. intros z Hz.
      rewrite insert_by_perm in Hz.
      apply elem_of_cons in Hz as [->|Hz].
      * destruct (leb_total x y); congruence.
      * by apply (proj1 (Forall_forall _ _) Hy).
Qed.

Lemma sorted_sorted l : StronglySorted (λ a b, leb a b = true) (sorted leb l).
Proof.
  induction l as [|x l IH]; simpl; [constructor|].
  by apply insert_by_sorted.
Qed.

Lemma StronglySorted_last l m :
  StronglySorted (λ a b, leb a b = true) l →
  last l = Some m → ∀ x, x ∈ l → leb x m = true.
Proof.
  induction 1 as [|y l Hl IH Hy]; intros Hlast x Hx.
  - by apply elem_of_nil in Hx.
  - destruct l as [|z l].
    + simpl in Hlast. injection Hlast as <-.
      apply list_elem_of_singleton in Hx as ->.
      destruct (leb_total y y); done.
    + rewrite last_cons_cons in Hlast.
      apply elem_of_cons in Hx as [->|Hx]; [|by apply IH].
      apply (proj1 (Forall_forall _ _) Hy).
      by apply last_Some_elem_of.
Qed.

(** The first element of the sorted list in reverse order is a greatest
    element of the list. *)
Lemma head_reverse_sorted l m :
  head (reverse (sorted leb l)) = Some m →
  m ∈ l ∧ ∀ x, x ∈ l → leb x m = true.
Proof.
  rewrite head_reverse. intros Hlast. split.
  - apply elem_of_sorted. by apply last_Some_elem_of.
  - intros x Hx. apply (StronglySorted_last (sorted leb l));
      [apply sorted_sorted | done | by apply elem_of_sorted].
Qed.

End sorted_props.

Lemma head_reverse_sorted_None {A} (leb : A → A → bool) l :
  head (reverse (sorted leb l)) = None ↔ l = [].
Proof.
  rewrite head_reverse, last_None. split.
  - intros H. apply Permutation_nil_r. by rewrite <- H, sorted_perm.
  - by intros ->.
Qed.

(** ** The queries of the catalogue *)

Lemma elem_of_streams_filter p l s :
  s ∈ streams_filter p l ↔ p s = true ∧ s ∈ l.
Proof.
  unfold streams_filter. rewrite !list_elem_of_In, filter_In. tauto.
Qed.


Lemma order_by_perm attr l :
  order_by attr l ≡ₚ streams_filter (has_attribute attr) l.
Proof.
  unfold order_by. destruct (numeric_labels _ _); apply sorted_perm.
Qed.

Lemma elem_of_order_by attr l s :
  s ∈ order_by attr l ↔ is_Some (attr s) ∧ s ∈ l.
Proof.
  rewrite order_by_perm, elem_of_streams_filter. unfold has_attribute.
  by rewrite bool_decide_eq_true.
Qed.

(** The head of a descending [order_by] query, where every label has a
    digit: a stream with the attribute whose number is the greatest. *)
Lemma first_desc_order_by attr l m :
  numeric_labels attr l = true →
  first (desc (order_by attr l)) = Some m →
  m ∈ l ∧ is_Some (attr m) ∧
  ∀ s, s ∈ l → is_Some (attr s) →
       (label_value (attr s) ≤ label_value (attr m))%N.
Proof.
  unfold first, desc, order_by.
  intros -> Hm. apply head_reverse_sorted in Hm as [Hin Hmax].
  - apply elem_of_streams_filter in Hin as [Hm Hin].
    apply bool_decide_eq_true in Hm.
    split; [done|]. split; [done|]. intros s Hs Hattr.
    apply N.leb_le. apply Hmax. apply elem_of_streams_filter.
    unfold has_attribute. by rewrite bool_decide_eq_true.
  - intros a b. rewrite !N.leb_le. lia.
  - intros a b c. rewrite !N.leb_le. lia.
Qed.

Lemma first_desc_order_by_None attr l :
  first (desc (order_by attr l)) = None ↔
  ∀ s, s ∈ l → attr s = None.
Proof.
  unfold first, desc. rewrite head_reverse, last_None. split.
  - intros Hnil s Hs. destruct (attr s) eqn:Hattr; [|done].
    assert (s ∈ order_by attr l) as Hin
      by (apply elem_of_order_by; rewrite Hattr; by eauto).
    rewrite Hnil in Hin. by apply elem_of_nil in Hin.
  - intros Hnone. destruct (order_by attr l) as [|s l'] eqn:Ho; [done|].
    assert (s ∈ order_by attr l) as Hin by (rewrite Ho; left).
    apply elem_of_order_by in Hin as [[x Hx] Hin].
    rewrite (Hnone s Hin) in Hx. done.
Qed.


(** The labels offered to the user: the non-empty resolution labels of the
    adaptive MP4 video-only streams. *)
Lemma elem_of_available_resolutions streams r :
  r ∈ available_resolutions streams ↔
  r ≠ [] ∧ ∃ s, s ∈ streams ∧ adaptive_mp4_video s = true ∧
                resolution s = Some r.
Proof.
  unfold available_resolutions, sorted_reverse, distinct, desc.
  rewrite elem_of_sorted, elem_of_remove_dups, list_elem_of_omap.
  split.
  - intros (s & Hs & Hr).
    apply elem_of_reverse, elem_of_order_by in Hs as [_ Hs].
    apply elem_of_streams_filter in Hs as [Hp Hs].
    unfold truthy_resolution in Hr.
    destruct (resolution s) as [[|c l]|] eqn:Hres; try done.
    injection Hr as <-. split; [done|]. by exists s.
  - intros (Hne & s & Hs & Hp & Hres). exists s. split.
    + apply elem_of_reverse, elem_of_order_by. rewrite Hres.
      split; [by eauto|]. by apply elem_of_streams_filter.
    + unfold truthy_resolution. rewrite Hres. by destruct r.
Qed.

Lemma NoDup_available_resolutions streams :
  NoDup (available_resolutions streams).
Proof.
  unfold available_resolutions, sorted_reverse, distinct.
  rewrite sorted_perm. apply NoDup_remove_dups.
Qed.

(** ** The order of strings *)

Lemma str_leb_total a b : str_leb a b = true ∨ str_leb b a = true.
Proof.
  revert b. induction a as [|x a IH]; intros [|y b]; simpl; auto.
  destruct (Nat.ltb_spec (nat_of_ascii x) (nat_of_ascii y)); [auto|].
  destruct (Nat.ltb_spec (nat_of_ascii y) (nat_of_ascii x)); [auto|].
  apply IH.
Qed.

Lemma str_leb_trans a b c :
  str_leb a b = true → str_leb b c = true → str_leb a c = true.
Proof.
  revert b c. induction a as [|x a IH]; intros [|y b] [|z c]; simpl;
    try done.
  destruct (Nat.ltb_spec (nat_of_ascii x) (nat_of_ascii y));
    destruct (Nat.ltb_spec (nat_of_ascii y) (nat_of_ascii x));
    destruct (Nat.ltb_spec (nat_of_ascii y) (nat_of_ascii z));
    destruct (Nat.ltb_spec (nat_of_ascii z) (nat_of_ascii y));
    destruct (Nat.ltb_spec (nat_of_ascii x) (nat_of_ascii z));
    destruct (Nat.ltb_spec (nat_of_ascii z) (nat_of_ascii x));
    try done; try lia.
  apply IH.
Qed.

(** ** [get_available_resolutions] *)

(** What the function does on every catalogue: the labels come out without
    repetition, each before every label that is smaller as a string. *)
Lemma available_resolutions_as_strings streams :
  NoDup (available_resolutions streams) ∧
  StronglySorted (λ a b, str_leb b a = true) (available_resolutions streams).
Proof.
  split; [apply NoDup_available_resolutions|].
  unfold available_resolutions, sorted_reverse.
  apply (sorted_sorted (λ a b, str_leb b a)).
  - intros a b. destruct (str_leb_total a b); auto.
  - intros a b c Hab Hbc. by apply (str_leb_trans c b a).
Qed.

(** C1 (the code differs). For the catalogue with adaptive MP4 video at
    1080p, 720p and 480p the function answers 720p, 480p, 1080p: the order
    of the labels as strings. 480p stands before 1080p although 480 is the
    smaller number, so the list is not in descending order of the
    resolution. *)
Theorem get_available_resolutions_lexical :
  (get_available_resolutions
     {| yt_streams := Ok catalogue_3; yt_title := Ok (py "My clip") |}
     (start ∅ [])).1
  = Ret [py "720p"; py "480p"; py "1080p"] ∧
  available_resolutions catalogue_3 = [py "720p"; py "480p"; py "1080p"] ∧
  (label_value (Some (py "480p")) < label_value (Some (py "1080p")))%N.
Proof. split; [|split]; reflexivity. Qed.

(** ** The progressive MP4 stream of [download_youtube] *)

Lemma first_streams_filter p l :
  match first (streams_filter p l) with
  | Some s => s ∈ l ∧ p s = true
  | None => ∀ s, s ∈ l → p s = false
  end.
Proof.
  unfold first. destruct (streams_filter p l) as [|s l'] eqn:Hf; simpl.
  - intros s Hs. destruct (p s) eqn:Hp; [|done].
    assert (s ∈ streams_filter p l) as Hin
      by (by apply elem_of_streams_filter).
    rewrite Hf in Hin. by apply elem_of_nil in Hin.
  - assert (s ∈ streams_filter p l) as Hin by (rewrite Hf; left).
    apply elem_of_streams_filter in Hin. tauto.
Qed.

(** C4, counterexample. The catalogue has a progressive MP4 stream, yet no
    stream is chosen and the job ends with an error: the stream has no
    resolution label, and [order_by] drops it. *)
Lemma select_progressive_mp4_unlabelled :
  (∃ s, s ∈ catalogue_unlabelled ∧ is_progressive s = true ∧
        file_extension (py "mp4") s = true) ∧
  select_progressive_mp4 catalogue_unlabelled = None ∧
  download_youtube (surroundings catalogue_unlabelled run_ok) (py "url")
    (py "mp4") (start ∅ [])
  = (Ret tt,
     {| w_fs := ∅; w_stdin := []; w_locals := ∅;
        w_trace :=
          [ EvYouTube (py "url"); EvStreams;
            EvPrint (py "Error: 'NoneType' object has no attribute 'download'")
          ] |}).
Proof.
  split; [|split].
  - exists (progressive_stream 999 None). split; [left|done].
  - reflexivity.
  - reflexivity.
Qed.

(** The job for [mp4], once the catalogue is there. *)
Lemma download_youtube_mp4_run e url yt streams fs stdin :
  env_youtube e url = Ok yt →
  yt_streams yt = Ok streams →
  download_youtube e url (py "mp4") (start fs stdin)
  = call
      (try_except
         (do out_file <- download_of e (select_progressive_mp4 streams)
                           (env_cwd e) None;
          print (py "Downloaded MP4: " ++ out_file))
         [ (Exception, fun ex => print (py "Error: " ++ exn_msg ex)) ])
      {| w_fs := fs; w_stdin := stdin; w_locals := ∅;
         w_trace := [EvYouTube url; EvStreams] |}.
Proof.
  intros Hyt Hstreams.
  unfold download_youtube, call, try_except, bind, new_YouTube, get_streams,
    emit, lift_res, start. simpl.
  rewrite Hyt. simpl. rewrite Hstreams. simpl.
  by destruct (download_of _ _ _ _ _) as [[]].
Qed.

(** C4, amended. Among the progressive MP4 streams that carry a resolution
    label, labels being numbers followed by a unit (360p), the job chooses
    one whose resolution is the greatest and downloads it; where no
    progressive MP4 stream carries a label it downloads nothing, prints an
    error and leaves the files as they were. *)
Theorem select_progressive_mp4_max
    (e : env) (url : str) (yt : YouTube) (streams : list Stream)
    (fs : gset str) (stdin : list str) :
  env_youtube e url = Ok yt →
  yt_streams yt = Ok streams →
  numeric_labels resolution (streams_filter progressive_mp4 streams) = true →
  let candidate s :=
    s ∈ streams ∧ progressive_mp4 s = true ∧ is_Some (resolution s) in
  let run := download_youtube e url (py "mp4") (start fs stdin) in
  ((∃ s, candidate s) →
   ∃ m rest,
     select_progressive_mp4 streams = Some m ∧ candidate m ∧
     (∀ s, candidate s →
           (label_value (resolution s) ≤ label_value (resolution m))%N) ∧
     w_trace run.2
     = [ EvYouTube url; EvStreams;
         EvDownload m (path_join (env_cwd e) (default_filename m)) ]
       ++ rest) ∧
  ((∀ s, ¬ candidate s) →
   select_progressive_mp4 streams = None ∧
   run = (Ret tt,
          {| w_fs := fs; w_stdin := stdin; w_locals := ∅;
             w_trace :=
               [ EvYouTube url; EvStreams;
                 EvPrint
                   (py "Error: 'NoneType' object has no attribute 'download'")
               ] |})).
Proof.
  intros Hyt Hstreams Hnum candidate run.
  pose proof (download_youtube_mp4_run e url yt streams fs stdin Hyt Hstreams)
    as Hrun.
  fold run in Hrun.
  assert (Hmax : ∀ m, select_progressive_mp4 streams = Some m →
            m ∈ streams_filter progressive_mp4 streams ∧
            is_Some (resolution m) ∧
            ∀ s, s ∈ streams_filter progressive_mp4 streams →
                 is_Some (resolution s) →
                 (label_value (resolution s) ≤ label_value (resolution m))%N)
    by (intros m; by apply first_desc_order_by).
  assert (Hnone : select_progressive_mp4 streams = None ↔
            ∀ s, s ∈ streams_filter progressive_mp4 streams →
                 resolution s = None)
    by apply first_desc_order_by_None.
  split.
  - intros (s & Hs & Hp & Hres).
    destruct (select_progressive_mp4 streams) as [m|]; cycle 1.
    { exfalso. destruct Hres as [r Hr].
      rewrite (proj1 Hnone eq_refl s) in Hr; [done|].
      by apply elem_of_streams_filter. }
    destruct (Hmax m eq_refl) as (Hm & Hmres & Hle).
    apply elem_of_streams_filter in Hm as [Hmp Hm].
    assert (∃ rest, w_trace run.2
              = [ EvYouTube url; EvStreams;
                  EvDownload m
                    (path_join (env_cwd e) (default_filename m)) ]
                ++ rest) as [rest Hrest].
    { rewrite Hrun.
      unfold call, try_except, bind, download_of, download, emit, print,
        add_files, ret, raise. simpl.
      destruct (env_download e m _) as [|ex [|]]; simpl; by eexists. }
    exists m, rest. split; [done|]. split; [done|]. split; [|done].
    intros s' (Hs' & Hp' & Hres'). apply Hle; [|done].
    by apply elem_of_streams_filter.
  - intros Hno.
    assert (select_progressive_mp4 streams = None) as Hsel.
    { apply Hnone. intros s Hs.
      apply elem_of_streams_filter in Hs as [Hp Hs].
      destruct (resolution s) eqn:Hres; [|done].
      exfalso. apply (Hno s). unfold candidate. rewrite Hres. by eauto. }
    split; [done|]. by rewrite Hrun, Hsel.
Qed.

Lemma select_progressive_mp4_max_witness :
  ∃ m rest,
    select_progressive_mp4 catalogue_progressive = Some m ∧
    itag m = 22 ∧
    w_trace (download_youtube (surroundings catalogue_progressive run_ok)
               (py "url") (py "mp4") (start ∅ [])).2
    = [ EvYouTube (py "url"); EvStreams;
        EvDownload m (py "/work/clip.mp4") ] ++ rest.
Proof.
  destruct (select_progressive_mp4_max
              (surroundings catalogue_progressive run_ok) (py "url")
              {| yt_streams := Ok catalogue_progressive;
                 yt_title := Ok (py "My clip") |}
              catalogue_progressive ∅ [] eq_refl eq_refl eq_refl)
    as [Hsome _].
  destruct Hsome as (m & rest & Hsel & _ & _ & Htrace).
  - exists (progressive_stream 18 (Some "360p")).
    split; [left|]. split; [done|]. by eexists.
  - assert (m = progressive_stream 22 (Some "720p")) as ->
      by (vm_compute in Hsel; by injection Hsel as <-).
    exists (progressive_stream 22 (Some "720p")), rest.
    split; [reflexivity|]. split; [reflexivity|]. exact Htrace.
Defined.

(** ** The streams of [download_mp4] *)


(** The prompt accepts a line that, in lower case, is one of the labels. *)
Lemma prompt_resolution_accepts resolutions w line rest :
  w_stdin w = line :: rest →
  lower line ∈ resolutions →
  prompt_resolution resolutions w
  = (Ret (lower line),
     {| w_fs := w_fs w; w_stdin := rest; w_locals := w_locals w;
        w_trace :=
          w_trace w ++ [EvInput (py "Choose a resolution (e.g., 720p): ")] |}).
Proof.
  intros Hin Hok. unfold prompt_resolution. rewrite Hin. simpl.
  unfold bind, input. rewrite Hin. simpl.
  by rewrite bool_decide_eq_true_2.
Qed.

Lemma select_video_spec streams r :
  r ≠ [] → offers_video streams r →
  ∃ v, select_video streams r = Some v ∧ v ∈ streams ∧
       adaptive_mp4_video v = true ∧ resolution v = Some r.
Proof.
  intros Hne (s & Hs & Hp & Hres). unfold select_video.
  pose proof (first_streams_filter
                (λ s, adaptive_mp4_video s && resolution_is r s) streams)
    as Hfirst.
  assert (Hr : ∀ s, resolution_is r s = true ↔ resolution s = Some r).
  { intros s'. unfold resolution_is. destruct r; [done|].
    apply bool_decide_eq_true. }
  destruct (first _) as [v|].
  - destruct Hfirst as [Hv Hpv]. apply andb_true_iff in Hpv as [Hpv Hrv].
    exists v. by rewrite <- Hr.
  - specialize (Hfirst s Hs). rewrite Hp in Hfirst. simpl in Hfirst.
    apply Hr in Hres. congruence.
Qed.





(** ** Jobs only add to the trace *)

Lemma extends_ret {A} (a : A) : extends (ret a).
Proof. by intros w. Qed.

Lemma extends_raise {A} ex : extends (@raise A ex).
Proof. by intros w. Qed.

Lemma extends_diverge {A} : extends (fun w => (@Diverge A, w)).
Proof. by intros w. Qed.

Lemma extends_bind {A B} (m : M A) (k : A → M B) :
  extends m → (∀ a, extends (k a)) → extends (bind m k).
Proof.
  intros Hm Hk w. unfold bind. specialize (Hm w).
  destruct (m w) as [[a|ex|] w']; simpl in *; [|done|done].
  etrans; [exact Hm | apply Hk].
Qed.

Lemma extends_find_handler {A} ex
    (handlers : list (exn_class * (exn → M A))) h :
  Forall (λ ch, ∀ ex, extends (ch.2 ex)) handlers →
  find_handler ex handlers = Some h → extends h.
Proof.
  induction 1 as [|[c h'] handlers Hh _ IH]; simpl; [done|].
  destruct (isinstance ex c); [|done]. intros [= <-]. apply Hh.
Qed.

Lemma extends_try_except {A} (body : M A) handlers :
  extends body →
  Forall (λ ch, ∀ ex, extends (ch.2 ex)) handlers →
  extends (try_except body handlers).
Proof.
  intros Hb Hh w. unfold try_except. specialize (Hb w).
  destruct (body w) as [[a|ex|] w']; simpl in *; [done| |done].
  destruct (find_handler ex handlers) as [h|] eqn:Hf; [|done].
  etrans; [exact Hb | by apply (extends_find_handler ex handlers h)].
Qed.

Lemma extends_try_finally {A} (body : M A) final :
  extends body → extends final → extends (try_finally body final).
Proof.
  intros Hb Hf w. unfold try_finally. specialize (Hb w).
  destruct (body w) as [[a|ex|] w']; simpl in *; [| |done];
    specialize (Hf w'); destruct (final w') as [[[]|ex'|] w'']; simpl in *;
    by etrans.
Qed.

Lemma extends_call {A} (body : M A) : extends body → extends (call body).
Proof.
  intros Hb w. unfold call.
  specialize (Hb {| w_fs := w_fs w; w_stdin := w_stdin w; w_locals := ∅;
                    w_trace := w_trace w |}).
  by destruct (body _) as [r w'].
Qed.

Lemma extends_emit ev : extends (emit ev).
Proof. intros w. simpl. by apply prefix_app_r. Qed.

Lemma extends_fs {A} (f : world → outcome A * world) :
  (∀ w, w_trace (f w).2 = w_trace w) → extends f.
Proof. intros H w. by rewrite H. Qed.

Lemma extends_input prompt : extends (input prompt).
Proof.
  intros w. unfold input. destruct (w_stdin w); simpl; by apply prefix_app_r.
Qed.

Lemma extends_lift_res {A} (r : res A) : extends (lift_res r).
Proof. destruct r; [apply extends_ret | apply extends_raise]. Qed.

Lemma extends_if {A} (b : bool) (m1 m2 : M A) :
  extends m1 → extends m2 → extends (if b then m1 else m2).
Proof. by destruct b. Qed.

Ltac extends_step :=
  first
    [ apply extends_bind; [|intros ?]
    | apply extends_try_except; [|repeat constructor; intros ?; simpl]
    | apply extends_try_finally
    | apply extends_call
    | apply extends_if
    | apply extends_ret | apply extends_raise | apply extends_diverge
    | apply extends_emit | apply extends_input | apply extends_lift_res
    | by (apply extends_fs; intros ?) ].

Ltac solve_extends := repeat extends_step.

Lemma extends_print line : extends (print line).
Proof. apply extends_emit. Qed.

Lemma extends_add_files ps : extends (add_files ps).
Proof. by apply extends_fs. Qed.

Lemma extends_os_remove e p : extends (os_remove e p).
Proof.
  unfold os_remove, os_path_exists, del_file. solve_extends.
Qed.







(** ** The transcoder check comes first *)




(** What [check_ffmpeg] does, by the answer of the surroundings. *)
Lemma check_ffmpeg_run e w :
  check_ffmpeg e w
  = let w1 := {| w_fs := w_fs w; w_stdin := w_stdin w;
                 w_locals := w_locals w;
                 w_trace := w_trace w ++ [EvRun ffmpeg_version_cmd] |} in
    match env_run e ffmpeg_version_cmd with
    | Completed returncode stderr created =>
        (Ret (returncode =? 0)%Z,
         {| w_fs := w_fs w ∪ created; w_stdin := w_stdin w;
            w_locals := w_locals w;
            w_trace := w_trace w ++ [EvRun ffmpeg_version_cmd] |})
    | SpawnError ex =>
        if isinstance ex CalledProcessError
           || isinstance ex FileNotFoundError
        then (Ret false, w1) else (Raise ex, w1)
    end.
Proof.
  unfold check_ffmpeg, try_except, bind, subprocess_run, emit, add_files,
    ret, raise. simpl.
  destruct (env_run e ffmpeg_version_cmd) as [rc stderr created|ex]; simpl.
  - destruct (Z.eqb_spec rc 0); simpl; [done|].
    unfold isinstance. simpl. done.
  - unfold isinstance. simpl.
    destruct (bool_decide (exn_cls ex = CalledProcessError)); simpl; [done|].
    by destruct (bool_decide (exn_cls ex = FileNotFoundError)).
Qed.

(** The transcoder is unavailable exactly when it is not available. *)
Lemma transcoder_unavailable_iff e :
  transcoder_unavailable e ↔ ¬ transcoder_available e.
Proof.
  unfold transcoder_unavailable, transcoder_available.
  destruct (env_run e ffmpeg_version_cmd) as [rc stderr created|ex].
  - split.
    + intros Hrc (stderr' & created' & H). by injection H.
    + intros H ->. apply H. eauto.
  - split; [|done]. by intros _ (stderr' & created' & H).
Qed.







(** ** [download_mp3] when the video cannot be reached *)

(** C3 (the code differs). The transcoder is there and the output directory
    can be made, but [YouTube(url)] raises, whatever the exception. A
    handler of the [try] block prints its message; then the [finally] block
    reads [temp_file], which was never assigned, and the job ends with
    [UnboundLocalError] instead of returning. *)
Theorem download_mp3_unbound_temp_file
    (e : env) (url : str) (output_dir : option str)
    (fs : gset str) (stdin : list str) (ex : exn) :
  transcoder_available e →
  env_makedirs_fails e (default (default_output_dir e) output_dir) = false →
  env_youtube e url = Err ex →
  (download_mp3 e url output_dir (start fs stdin)).1
  = Raise (unbound "temp_file").
Proof.
  intros (stderr & created & Hrun) Hmk Hyt.
  unfold download_mp3, call, bind. rewrite check_ffmpeg_run, Hrun. simpl.
  unfold os_makedirs, try_finally, try_except, bind, emit, add_files,
    new_YouTube, lift_res, raise, get_local. simpl.
  rewrite Hmk, Hyt. simpl.
  unfold isinstance, print, emit. simpl.
  destruct (bool_decide (exn_cls ex = CalledProcessError)); simpl; [done|].
  by destruct (bool_decide (exn_cls ex = URLError)).
Qed.

Lemma download_mp3_unbound_temp_file_witness :
  download_mp3 offline (py "url") None (start ∅ [])
  = (Raise (unbound "temp_file"),
     {| w_fs := {[ py "/home/user/Downloads/YouTube" ]};
        w_stdin := []; w_locals := ∅;
        w_trace :=
          [ EvRun ffmpeg_version_cmd;
            EvMakedirs (py "/home/user/Downloads/YouTube");
            EvYouTube (py "url");
            EvPrint (py "Error: Invalid URL or network issue.") ] |}) ∧
  (download_mp3 offline (py "url") None (start ∅ [])).1
  = Raise (unbound "temp_file").
Proof.
  split.
  - vm_compute. reflexivity.
  - apply (download_mp3_unbound_temp_file offline (py "url") None ∅ []
             (Exn URLError (py "unreachable"))).
    + by exists [], ∅.
    + reflexivity.
    + reflexivity.
Defined.

(** ** The cleanup of [download_mp4] after a failed merge *)

Lemma bind_ret {A B} (m : M A) (k : A → M B) w a w' :
  m w = (Ret a, w') → bind m k w = k a w'.
Proof. unfold bind. by intros ->. Qed.

Lemma os_makedirs_run e p w :
  env_makedirs_fails e p = false →
  os_makedirs e p w
  = (Ret tt, {| w_fs := w_fs w ∪ {[p]}; w_stdin := w_stdin w;
                w_locals := w_locals w;
                w_trace := w_trace w ++ [EvMakedirs p] |}).
Proof. intros H. unfold os_makedirs, bind, emit. simpl. by rewrite H. Qed.

Lemma download_run e s output_path name w :
  env_download e s (path_join output_path name) = Downloaded →
  download e s output_path (Some name) w
  = (Ret (path_join output_path name),
     {| w_fs := w_fs w ∪ {[path_join output_path name]};
        w_stdin := w_stdin w; w_locals := w_locals w;
        w_trace := w_trace w ++ [EvDownload s (path_join output_path name)] |}).
Proof. intros H. unfold download, bind, emit. simpl. by rewrite H. Qed.


(** What [remove_temp] leaves: the outcome is a return; the file is gone if
    its deletion does not fail, and otherwise the files are as before and a
    warning is printed. *)
Lemma remove_temp_run e t w :
  ∃ w', remove_temp e t w = (Ret tt, w') ∧
        w_stdin w' = w_stdin w ∧ w_locals w' = w_locals w ∧
        w_trace w `prefix_of` w_trace w' ∧
        (if env_remove_fails e t
         then w_fs w' = w_fs w ∧
              (t ∈ w_fs w →
               EvPrint (py "Warning: Could not delete temporary file " ++ t)
               ∈ w_trace w')
         else w_fs w' = w_fs w ∖ {[t]}).
Proof.
  unfold remove_temp, bind, os_path_exists, path_exists. simpl.
  case_bool_decide as Hin.
  - unfold try_except, os_remove, bind, emit, os_path_exists, path_exists.
    simpl. rewrite bool_decide_eq_true_2 by done. simpl.
    destruct (env_remove_fails e t); simpl.
    + eexists. split; [done|]. simpl. repeat split; try done.
      * apply prefix_app_r. by apply prefix_app_r.
      * intros _. rewrite !elem_of_app. right. by left.
    + eexists. split; [done|]. simpl. repeat split; try done.
      by apply prefix_app_r.
  - exists w. split; [done|]. repeat split; try done.
    destruct (env_remove_fails e t); [done|]. set_solver.
Qed.

Lemma bind_raise {A B} (m : M A) (k : A → M B) w ex w' :
  m w = (Raise ex, w') → bind m k w = (Raise ex, w').
Proof. unfold bind. by intros ->. Qed.

Lemma ensure_unique_filename_not_exists fs filepath r :
  ensure_unique_filename fs filepath = Some r → r ∉ fs.
Proof.
  unfold ensure_unique_filename, ensure_unique_filename_fuel.
  destruct (splitext filepath) as [base ext]. intros Hr.
  by apply ensure_unique_loop_result in Hr as [? _].
Qed.





(** ** Two more runs of the model *)

(** A title of sixty characters is cut to fifty. *)
Example sanitize_long_title :
  sanitize_filename (replicate 60 "a"%char) = replicate 50 "a"%char.
Proof. reflexivity. Qed.

(** The same job as in the scenario of C8, with the transcoder there and a
    merge that works: both streams are downloaded, the files merged, and the
    temporary files deleted. *)
Example download_mp4_success :
  let run :=
    download_mp4 (surroundings catalogue_3 run_ok) (py "url")
      (Some (py "out")) (start ∅ [py "1080P"]) in
  run.1 = Ret tt ∧
  last (w_trace run.2) = Some (EvRemove (py "out/audio_temp.m4a")) ∧
  EvPrint (py "Download and merge complete: out/My clip.mp4")
  ∈ w_trace run.2.
Proof.
  split; [reflexivity|]. split; [reflexivity|].
  by apply (list_elem_of_lookup_2 _ 14).
Qed.


(** * Part III: further properties of the code *)

(** ** [sanitize_filename], character by character *)

Lemma replace_all_map chars s :
  underscore ∉ chars →
  replace_all chars s
  = (λ c, if bool_decide (c ∈ chars) then underscore else c) <$> s.
Proof.
  revert s. induction chars as [|d chars IH]; intros s Hu; simpl.
  - induction s as [|c s IHs]; [done|]. by rewrite fmap_cons, <- IHs.
  - apply not_elem_of_cons in Hu as [Hud Hu].
    rewrite IH by done. unfold str_replace.
    rewrite <- list_fmap_compose. apply list_fmap_ext. intros _ c _. simpl.
    destruct (Ascii.eqb_spec c d) as [->|Hne].
    + rewrite (bool_decide_eq_false_2 (underscore ∈ chars)) by done.
      rewrite bool_decide_eq_true_2; [done | left].
    + destruct (decide (c ∈ chars)) as [Hin|Hnin].
      * rewrite !bool_decide_eq_true_2; [done | by right | done].
      * rewrite !bool_decide_eq_false_2; [done | | done].
        by intros [?|?]%elem_of_cons.
Qed.

(** X1. The sanitised name is the first fifty characters of the title, each
    invalid character replaced by an underscore and every other character
    kept in its place; its length is the smaller of 50 and the length of
    the title. *)
Theorem sanitize_filename_chars (s : str) :
  sanitize_filename s = sanitize_char <$> take 50 s ∧
  length (sanitize_filename s) = Nat.min 50 (length s).
Proof.
  assert (H : sanitize_filename s = sanitize_char <$> take 50 s).
  { unfold sanitize_filename, slice_to.
    rewrite (replace_all_map _ _ underscore_valid).
    change (Z.to_nat 50) with 50. by rewrite fmap_take. }
  split; [done|]. rewrite H, length_fmap, length_take. lia.
Qed.

(** X2. The names that [sanitize_filename] leaves as they are: those of at
    most fifty characters without any invalid character. *)
Theorem sanitize_filename_fixed (s : str) :
  sanitize_filename s = s ↔
  length s ≤ 50 ∧ ∀ c, c ∈ invalid_chars → c ∉ s.
Proof.
  split.
  - intros H. split.
    + rewrite <- H. unfold sanitize_filename, slice_to. rewrite length_take.
      lia.
    + intros c Hc. rewrite <- H. by apply sanitize_filename_clean.
  - intros [Hlen Hclean]. unfold sanitize_filename, slice_to.
    rewrite replace_all_clean by done. apply take_ge. lia.
Qed.

(** ** [ensure_unique_filename]: the least free counter *)

(** X3. The path returned is the given path exactly when that path does not
    exist; otherwise it is the numbered candidate with the least counter,
    from 1 on, that does not exist. *)
Theorem ensure_unique_filename_least (fs : gset str) (filepath : str) :
  ∃ r,
    ensure_unique_filename fs filepath = Some r ∧
    (((filepath ∉ fs) ∧ r = filepath) ∨
     ((filepath ∈ fs) ∧
      ∃ k, 1 ≤ k ∧
           r = numbered (splitext filepath).1 (splitext filepath).2 k ∧
           (r ∉ fs) ∧
           ∀ j, 1 ≤ j < k →
                numbered (splitext filepath).1 (splitext filepath).2 j ∈ fs)).
Proof.
  destruct (ensure_unique_filename_total fs filepath) as [r Hr].
  exists r. split; [done|].
  unfold ensure_unique_filename, ensure_unique_filename_fuel in Hr.
  destruct (splitext filepath) as [base ext]. simpl.
  destruct (decide (filepath ∈ fs)) as [Hin|Hnin].
  - right. split; [done|].
    apply ensure_unique_loop_result in Hr
      as [Hfresh [->|(_ & k & Hk & -> & Hbelow)]]; [done|].
    by exists k.
  - left. split; [done|].
    destruct (size fs + 2) as [|fuel] eqn:Hfuel; [lia|]. simpl in Hr.
    unfold path_exists in Hr. rewrite bool_decide_eq_false_2 in Hr by done.
    by injection Hr.
Qed.

(** X4. Two calls in a row for the same path, the file of the first answer
    made in between, give two different paths, neither of which existed
    before. *)
Theorem ensure_unique_filename_twice (fs : gset str) (filepath : str) :
  ∃ r r',
    ensure_unique_filename fs filepath = Some r ∧
    ensure_unique_filename (fs ∪ {[r]}) filepath = Some r' ∧
    r' ≠ r ∧ (r ∉ fs) ∧ (r' ∉ fs).
Proof.
  destruct (ensure_unique_filename_total fs filepath) as [r Hr].
  destruct (ensure_unique_filename_total (fs ∪ {[r]}) filepath) as [r' Hr'].
  exists r, r'. split; [done|]. split; [done|].
  apply ensure_unique_filename_not_exists in Hr, Hr'.
  set_solver.
Qed.

(** ** The list of resolutions *)

Lemma nat_of_ascii_inj a b : nat_of_ascii a = nat_of_ascii b → a = b.
Proof.
  intros H. by rewrite <- (ascii_nat_embedding a), <- (ascii_nat_embedding b), H.
Qed.

Lemma str_leb_antisym a b :
  str_leb a b = true → str_leb b a = true → a = b.
Proof.
  revert b. induction a as [|x a IH]; intros [|y b]; simpl; try done.
  destruct (Nat.ltb_spec (nat_of_ascii x) (nat_of_ascii y));
    destruct (Nat.ltb_spec (nat_of_ascii y) (nat_of_ascii x));
    try done; try lia.
  intros Hab Hba. f_equal; [|by apply IH].
  apply nat_of_ascii_inj. lia.
Qed.

(** X5. The list offered to the user holds exactly the non-empty resolution
    labels of the adaptive MP4 video-only streams, each once, every label
    before the labels that are smaller as strings; it is the same list for
    every order of the catalogue. *)
Theorem available_resolutions_spec (streams : list Stream) :
  NoDup (available_resolutions streams) ∧
  StronglySorted (λ a b, str_leb b a = true) (available_resolutions streams) ∧
  (∀ r, r ∈ available_resolutions streams ↔
        r ≠ [] ∧ offers_video streams r) ∧
  ∀ streams', streams' ≡ₚ streams →
              available_resolutions streams' = available_resolutions streams.
Proof.
  destruct (available_resolutions_as_strings streams) as [Hnd Hsorted].
  split; [done|]. split; [done|].
  split; [intros r; apply elem_of_available_resolutions|].
  intros streams' Hperm.
  destruct (available_resolutions_as_strings streams') as [Hnd' Hsorted'].
  assert (AntiSymm (=) (λ a b : str, str_leb b a = true)) as Hanti.
  { intros a b Hab Hba. by apply str_leb_antisym. }
  eapply (StronglySorted_unique (λ a b : str, str_leb b a = true));
    [done | done |].
  apply NoDup_Permutation; [done | done |].
  intros r. rewrite !elem_of_available_resolutions.
  split; intros (Hne & s & Hs & H); (split; [done|]); exists s;
    (split; [|done]); [by rewrite <- Hperm | by rewrite Hperm].
Qed.

(** X6. Whatever label of the offered list the user picks, the catalogue has
    an adaptive MP4 video-only stream with that label and the first such
    stream is chosen: the branch of [download_mp4] for a missing video
    stream (lines 76-78) is never taken. *)
Theorem select_video_offered (streams : list Stream) (r : str) :
  r ∈ available_resolutions streams →
  ∃ v, select_video streams r = Some v ∧ v ∈ streams ∧
       adaptive_mp4_video v = true ∧ resolution v = Some r.
Proof.
  intros [Hne Hoffers]%elem_of_available_resolutions.
  by apply select_video_spec.
Qed.

Lemma select_video_offered_witness :
  ∃ v, select_video catalogue_3 (py "480p") = Some v ∧ v ∈ catalogue_3 ∧
       adaptive_mp4_video v = true ∧ resolution v = Some (py "480p").
Proof.
  apply (select_video_offered catalogue_3 (py "480p")).
  apply (bool_decide_unpack _). vm_compute. exact I.
Defined.

(** ** The audio stream of the two jobs *)

(** X7. [download_mp3] and [download_mp4] choose the same audio stream: an
    audio-only stream is adaptive, so [adaptive=True] of line 82 filters
    nothing out. *)
Theorem select_mp3_audio_select_audio (streams : list Stream) :
  select_mp3_audio streams = select_audio streams.
Proof.
  unfold select_mp3_audio, select_audio, streams_filter.
  f_equal. f_equal. f_equal. apply filter_ext. intros s.
  unfold adaptive_audio, only_audio, is_adaptive, is_progressive,
    includes_audio_track, includes_video_track.
  by destruct (stream_kind s).
Qed.

(** X8. The audio stream chosen, where the bitrate labels are numeric: an
    audio-only stream of the catalogue with a bitrate label, whose bitrate
    no such stream exceeds, whatever its container; and none is chosen
    exactly when no audio-only stream has a label. *)
Theorem select_mp3_audio_max (streams : list Stream) :
  numeric_labels abr (streams_filter only_audio streams) = true →
  match select_mp3_audio streams with
  | Some a =>
      a ∈ streams ∧ only_audio a = true ∧ is_Some (abr a) ∧
      ∀ a', a' ∈ streams → only_audio a' = true → is_Some (abr a') →
            (label_value (abr a') ≤ label_value (abr a))%N
  | None => ∀ a', a' ∈ streams → only_audio a' = true → abr a' = None
  end.
Proof.
  intros Hnum. unfold select_mp3_audio.
  pose proof (first_desc_order_by abr (streams_filter only_audio streams))
    as Hmax.
  pose proof (first_desc_order_by_None abr
                (streams_filter only_audio streams)) as Hnone.
  destruct (first _) as [a|].
  - destruct (Hmax a Hnum eq_refl) as (Ha & Hsome & Hle).
    apply elem_of_streams_filter in Ha as [Hp Ha].
    repeat split; try done.
    intros a' Ha' Hp' Hsome'. apply Hle; [|done].
    by apply elem_of_streams_filter.
  - intros a' Ha' Hp'. apply (proj1 Hnone eq_refl).
    by apply elem_of_streams_filter.
Qed.

Lemma select_mp3_audio_max_witness :
  match select_mp3_audio catalogue_3 with
  | Some a =>
      a ∈ catalogue_3 ∧ only_audio a = true ∧ is_Some (abr a) ∧
      ∀ a', a' ∈ catalogue_3 → only_audio a' = true → is_Some (abr a') →
            (label_value (abr a') ≤ label_value (abr a))%N
  | None => ∀ a', a' ∈ catalogue_3 → only_audio a' = true → abr a' = None
  end.
Proof. apply (select_mp3_audio_max catalogue_3). reflexivity. Defined.

(** ** [check_ffmpeg] *)

(** X9. [check_ffmpeg] answers [True] exactly when [ffmpeg -version] ends
    with return code 0. It raises neither [CalledProcessError] nor
    [FileNotFoundError]; an exception of another class on starting the
    process, [PermissionError] for one, is not caught and leaves the
    function. It runs the one command and nothing else. *)
Theorem check_ffmpeg_outcome (e : env) (w : world) :
  let r := check_ffmpeg e w in
  w_trace r.2 = w_trace w ++ [EvRun ffmpeg_version_cmd] ∧
  (r.1 = Ret true ↔ transcoder_available e) ∧
  (∀ ex, r.1 = Raise ex ↔
         env_run e ffmpeg_version_cmd = SpawnError ex ∧
         isinstance ex CalledProcessError = false ∧
         isinstance ex FileNotFoundError = false) ∧
  (∀ ex, env_run e ffmpeg_version_cmd = SpawnError ex →
         exn_cls ex = PermissionError → r.1 = Raise ex).
Proof.
  intros r. subst r. rewrite check_ffmpeg_run. cbv zeta.
  unfold transcoder_available.
  destruct (env_run e ffmpeg_version_cmd) as [rc stderr created|ex0];
    cbn [fst snd w_trace].
  - split; [done|]. split; [|split].
    + split.
      * intros [= Hrc]. apply Z.eqb_eq in Hrc as ->. by eauto.
      * intros (? & ? & [= -> _ _]). done.
    + intros ex. split; [done | by intros [? _]].
    + done.
  - destruct (isinstance ex0 CalledProcessError) eqn:Hc;
      destruct (isinstance ex0 FileNotFoundError) eqn:Hf;
      cbn [orb fst snd w_trace]; (split; [done|]); (split; [|split]);
      try (split; [done | by intros (? & ? & ?)]);
      try (intros ex; split; [done | intros ([= <-] & ? & ?); congruence]);
      try (intros ex [= <-] Hp; unfold isinstance in *; rewrite Hp in *;
           done).
    intros ex. split; [by intros [= <-] | by intros ([= <-] & _)].
Qed.

(** ** [download_mp4]: the ways out before the downloads *)

Lemma try_except_ret {A} (body : M A) handlers w a w' :
  body w = (Ret a, w') → try_except body handlers w = (Ret a, w').
Proof. unfold try_except. by intros ->. Qed.

Lemma try_except_raise {A} (body : M A) handlers w ex w' :
  body w = (Raise ex, w') →
  try_except body handlers w
  = match find_handler ex handlers with
    | Some h => h w'
    | None => (Raise ex, w')
    end.
Proof. unfold try_except. by intros ->. Qed.

Lemma new_YouTube_run e url w :
  new_YouTube e url w
  = (match env_youtube e url with Ok yt => Ret yt | Err ex => Raise ex end,
     {| w_fs := w_fs w; w_stdin := w_stdin w; w_locals := w_locals w;
        w_trace := w_trace w ++ [EvYouTube url] |}).
Proof.
  unfold new_YouTube, bind, emit, lift_res. simpl.
  by destruct (env_youtube e url).
Qed.

Lemma get_streams_run yt w :
  get_streams yt w
  = (match yt_streams yt with Ok l => Ret l | Err ex => Raise ex end,
     {| w_fs := w_fs w; w_stdin := w_stdin w; w_locals := w_locals w;
        w_trace := w_trace w ++ [EvStreams] |}).
Proof.
  unfold get_streams, bind, emit, lift_res. simpl.
  by destruct (yt_streams yt).
Qed.

Lemma get_title_run yt w :
  get_title yt w
  = (match yt_title yt with Ok l => Ret l | Err ex => Raise ex end,
     {| w_fs := w_fs w; w_stdin := w_stdin w; w_locals := w_locals w;
        w_trace := w_trace w ++ [EvTitle] |}).
Proof.
  unfold get_title, bind, emit, lift_res. simpl.
  by destruct (yt_title yt).
Qed.

Lemma get_available_resolutions_run yt w :
  get_available_resolutions yt w
  = (match yt_streams yt with
     | Ok l => Ret (available_resolutions l)
     | Err ex => Raise ex
     end,
     {| w_fs := w_fs w; w_stdin := w_stdin w; w_locals := w_locals w;
        w_trace := w_trace w ++ [EvStreams] |}).
Proof.
  unfold get_available_resolutions, bind. rewrite get_streams_run.
  by destruct (yt_streams yt).
Qed.

Lemma try_YouTube_ok e url yt
    (handlers : list (exn_class * (exn → M (option YouTube)))) w :
  env_youtube e url = Ok yt →
  try_except (do yt <- new_YouTube e url; ret (Some yt)) handlers w
  = (Ret (Some yt),
     {| w_fs := w_fs w; w_stdin := w_stdin w; w_locals := w_locals w;
        w_trace := w_trace w ++ [EvYouTube url] |}).
Proof.
  intros Hyt. apply try_except_ret. unfold bind.
  by rewrite new_YouTube_run, Hyt.
Qed.

(** The first steps of the two jobs of TY_To_mp3_or_mp4.py, where the
    transcoder is there and the output directory can be made. *)
Ltac job_begin Hrun Hmk :=
  unfold download_mp4, download_mp3, call;
  rewrite (bind_ret _ _ _ true _ (eq_trans (check_ffmpeg_run _ _)
             ltac:(rewrite Hrun; reflexivity)));
  cbn [negb];
  rewrite (bind_ret _ _ _ _ _ (os_makedirs_run _ _ _ Hmk));
  cbn [w_fs w_stdin w_locals w_trace start].

Ltac norm_world := cbn [w_fs w_stdin w_locals w_trace fst snd].

(** X10. When [YouTube(url)] raises: a [URLError] is caught, the job prints
    that the URL is invalid or the network down and returns; an exception
    of any other class leaves [download_mp4]. Either way nothing is asked
    of the user and nothing is downloaded. *)
Theorem download_mp4_constructor_error
    (e : env) (url : str) (output_dir : option str)
    (fs : gset str) (stdin : list str) (ex : exn) :
  transcoder_available e →
  env_makedirs_fails e (default (default_output_dir e) output_dir) = false →
  env_youtube e url = Err ex →
  let run := download_mp4 e url output_dir (start fs stdin) in
  run.1 = (if isinstance ex URLError then Ret tt else Raise ex) ∧
  w_stdin run.2 = stdin ∧
  w_trace run.2
  = [ EvRun ffmpeg_version_cmd;
      EvMakedirs (default (default_output_dir e) output_dir);
      EvYouTube url ]
    ++ (if isinstance ex URLError
        then [EvPrint (py "Error: Invalid URL or network issue.")]
        else []).
Proof.
  intros (stderr0 & created0 & Hrun) Hmk Hyt run.
  eassert (Heq : run = _).
  { subst run. job_begin Hrun Hmk.
    unfold bind at 1.
    erewrite try_except_raise; cycle 1.
    { apply bind_raise. rewrite new_YouTube_run, Hyt. reflexivity. }
    cbn [find_handler]. reflexivity. }
  rewrite Heq. clear Heq run.
  destruct (isinstance ex URLError); [|done].
  erewrite (bind_ret (print _)) by reflexivity. done.
Qed.

Lemma download_mp4_constructor_error_witness :
  let run := download_mp4 offline (py "url") None (start ∅ [py "720p"]) in
  run.1 = Ret tt ∧
  w_stdin run.2 = [py "720p"] ∧
  w_trace run.2
  = [ EvRun ffmpeg_version_cmd;
      EvMakedirs (py "/home/user/Downloads/YouTube");
      EvYouTube (py "url");
      EvPrint (py "Error: Invalid URL or network issue.") ].
Proof.
  apply (download_mp4_constructor_error offline (py "url") None ∅
           [py "720p"] (Exn URLError (py "unreachable"))).
  - by exists [], ∅.
  - reflexivity.
  - reflexivity.
Defined.

(** X11. When reading the catalogue ([yt.streams], line 58) raises, the
    exception leaves [download_mp4], whatever its class, [URLError]
    included: the call stands outside every [try]. *)
Theorem download_mp4_catalogue_error
    (e : env) (url : str) (output_dir : option str)
    (fs : gset str) (stdin : list str) (yt : YouTube) (ex : exn) :
  transcoder_available e →
  env_makedirs_fails e (default (default_output_dir e) output_dir) = false →
  env_youtube e url = Ok yt →
  yt_streams yt = Err ex →
  let run := download_mp4 e url output_dir (start fs stdin) in
  run.1 = Raise ex ∧
  w_trace run.2
  = [ EvRun ffmpeg_version_cmd;
      EvMakedirs (default (default_output_dir e) output_dir);
      EvYouTube url; EvStreams ].
Proof.
  intros (stderr0 & created0 & Hrun) Hmk Hyt Hstreams run.
  eassert (Heq : run = _).
  { subst run. job_begin Hrun Hmk.
    erewrite (bind_ret (try_except _ _)); cycle 1.
    { by apply try_YouTube_ok. }
    cbv beta iota.
    erewrite bind_raise; cycle 1.
    { rewrite get_available_resolutions_run, Hstreams. reflexivity. }
    reflexivity. }
  by rewrite Heq.
Qed.

(** X12. A catalogue without a labelled adaptive MP4 video-only stream: the
    job prints that no suitable video stream was found and returns; the
    user is not asked, and nothing is downloaded. *)
Theorem download_mp4_no_video
    (e : env) (url : str) (output_dir : option str)
    (fs : gset str) (stdin : list str) (yt : YouTube)
    (streams : list Stream) :
  transcoder_available e →
  env_makedirs_fails e (default (default_output_dir e) output_dir) = false →
  env_youtube e url = Ok yt →
  yt_streams yt = Ok streams →
  (∀ s, s ∈ streams → adaptive_mp4_video s = true →
        resolution s = None ∨ resolution s = Some []) →
  let run := download_mp4 e url output_dir (start fs stdin) in
  run.1 = Ret tt ∧
  w_stdin run.2 = stdin ∧
  w_trace run.2
  = [ EvRun ffmpeg_version_cmd;
      EvMakedirs (default (default_output_dir e) output_dir);
      EvYouTube url; EvStreams;
      EvPrint (py "Error: No suitable video streams found.") ].
Proof.
  intros (stderr0 & created0 & Hrun) Hmk Hyt Hstreams Hnone run. subst run.
  assert (available_resolutions streams = []) as Hres.
  { destruct (available_resolutions streams) as [|r rs] eqn:Hr; [done|].
    assert (r ∈ available_resolutions streams) as Hin by (rewrite Hr; left).
    apply elem_of_available_resolutions in Hin
      as (Hne & s & Hs & Hp & Hlabel).
    destruct (Hnone s Hs Hp) as [H|H]; rewrite H in Hlabel; [done|].
    by injection Hlabel as <-. }
  eassert (Heq : download_mp4 e url output_dir (start fs stdin) = _).
  { job_begin Hrun Hmk.
    erewrite (bind_ret (try_except _ _)); cycle 1.
    { by apply try_YouTube_ok. }
    cbv beta iota.
    erewrite (bind_ret (get_available_resolutions yt)); cycle 1.
    { rewrite get_available_resolutions_run, Hstreams. reflexivity. }
    rewrite Hres. reflexivity. }
  by rewrite Heq.
Qed.

Lemma download_mp4_no_video_witness :
  let run :=
    download_mp4 (surroundings catalogue_unlabelled run_ok) (py "url")
      (Some (py "out")) (start ∅ [py "720p"]) in
  run.1 = Ret tt ∧
  w_stdin run.2 = [py "720p"] ∧
  w_trace run.2
  = [ EvRun ffmpeg_version_cmd; EvMakedirs (py "out");
      EvYouTube (py "url"); EvStreams;
      EvPrint (py "Error: No suitable video streams found.") ].
Proof.
  apply (download_mp4_no_video
           (surroundings catalogue_unlabelled run_ok) (py "url")
           (Some (py "out")) ∅ [py "720p"]
           {| yt_streams := Ok catalogue_unlabelled;
              yt_title := Ok (py "My clip") |}
           catalogue_unlabelled).
  - by exists [], ∅.
  - reflexivity.
  - reflexivity.
  - reflexivity.
  - intros s Hs Hp.
    repeat (apply elem_of_cons in Hs as [->|Hs]; [done|]).
    by apply elem_of_nil in Hs.
Defined.

(** ** The prompt for the resolution *)

Lemma choose_resolution_retries resolutions bad good rest :
  Forall (λ l, lower l ∉ resolutions) bad →
  lower good ∈ resolutions →
  ∀ fuel w,
    length bad < fuel →
    w_stdin w = bad ++ good :: rest →
    choose_resolution fuel resolutions w
    = (Ret (lower good),
       {| w_fs := w_fs w; w_stdin := rest; w_locals := w_locals w;
          w_trace :=
            w_trace w
            ++ (bad ≫= λ _,
                  [ EvInput (py "Choose a resolution (e.g., 720p): ");
                    EvPrint (py "Invalid resolution. Please choose from: "
                             ++ str_join (py ", ") resolutions) ])
            ++ [EvInput (py "Choose a resolution (e.g., 720p): ")] |}).
Proof.
  intros Hbad Hgood. induction Hbad as [|l bad Hl Hbad IH];
    intros fuel w Hfuel Hin; (destruct fuel as [|fuel]; [simpl in Hfuel; lia|]);
    simpl choose_resolution; unfold bind at 1, input at 1; rewrite Hin;
    simpl.
  - by rewrite bool_decide_eq_true_2.
  - rewrite bool_decide_eq_false_2 by done.
    erewrite (bind_ret (print _)) by reflexivity.
    rewrite (IH fuel); [|simpl in Hfuel; lia|done].
    norm_world. f_equal. f_equal. by rewrite <- !app_assoc.
Qed.

(** X13. The prompt is repeated until a line, taken in lower case, is one of
    the offered labels: every line before it is answered with the list of
    labels, the lines after it stay unread, and the label in lower case is
    the answer. *)
Theorem prompt_resolution_retries
    (resolutions : list str) (bad : list str) (good : str) (rest : list str)
    (w : world) :
  w_stdin w = bad ++ good :: rest →
  Forall (λ l, lower l ∉ resolutions) bad →
  lower good ∈ resolutions →
  prompt_resolution resolutions w
  = (Ret (lower good),
     {| w_fs := w_fs w; w_stdin := rest; w_locals := w_locals w;
        w_trace :=
          w_trace w
          ++ (bad ≫= λ _,
                [ EvInput (py "Choose a resolution (e.g., 720p): ");
                  EvPrint (py "Invalid resolution. Please choose from: "
                           ++ str_join (py ", ") resolutions) ])
          ++ [EvInput (py "Choose a resolution (e.g., 720p): ")] |}).
Proof.
  intros Hin Hbad Hgood. unfold prompt_resolution.
  apply choose_resolution_retries; try done.
  rewrite Hin, length_app. simpl. lia.
Qed.

Lemma prompt_resolution_retries_witness :
  (prompt_resolution [py "720p"; py "480p"]
     (start ∅ [py "4k"; py ""; py "480P"; py "720p"])).1
  = Ret (py "480p") ∧
  w_stdin (prompt_resolution [py "720p"; py "480p"]
             (start ∅ [py "4k"; py ""; py "480P"; py "720p"])).2
  = [py "720p"].
Proof.
  rewrite (prompt_resolution_retries [py "720p"; py "480p"]
             [py "4k"; py ""] (py "480P") [py "720p"]).
  - done.
  - reflexivity.
  - repeat constructor; apply (bool_decide_unpack _); vm_compute; exact I.
  - apply (bool_decide_unpack _). vm_compute. exact I.
Defined.

Lemma choose_resolution_eof resolutions bad :
  Forall (λ l, lower l ∉ resolutions) bad →
  ∀ fuel w,
    length bad < fuel →
    w_stdin w = bad →
    choose_resolution fuel resolutions w
    = (Raise (Exn EOFError (py "EOF when reading a line")),
       {| w_fs := w_fs w; w_stdin := []; w_locals := w_locals w;
          w_trace :=
            w_trace w
            ++ (bad ≫= λ _,
                  [ EvInput (py "Choose a resolution (e.g., 720p): ");
                    EvPrint (py "Invalid resolution. Please choose from: "
                             ++ str_join (py ", ") resolutions) ])
            ++ [EvInput (py "Choose a resolution (e.g., 720p): ")] |}).
Proof.
  intros Hbad. induction Hbad as [|l bad Hl Hbad IH];
    intros fuel w Hfuel Hin; (destruct fuel as [|fuel]; [simpl in Hfuel; lia|]);
    simpl choose_resolution; unfold bind at 1, input at 1; rewrite Hin;
    simpl.
  - done.
  - rewrite bool_decide_eq_false_2 by done.
    erewrite (bind_ret (print _)) by reflexivity.
    rewrite (IH fuel); [|simpl in Hfuel; lia|done].
    norm_world. f_equal. f_equal. by rewrite <- !app_assoc.
Qed.

(** X14. When no line of the standard input is an offered label, the prompt
    ends with [EOFError] after the last line, having answered every line
    with the list of labels; the loop itself has no other way out. *)
Theorem prompt_resolution_eof (resolutions : list str) (w : world) :
  Forall (λ l, lower l ∉ resolutions) (w_stdin w) →
  prompt_resolution resolutions w
  = (Raise (Exn EOFError (py "EOF when reading a line")),
     {| w_fs := w_fs w; w_stdin := []; w_locals := w_locals w;
        w_trace :=
          w_trace w
          ++ (w_stdin w ≫= λ _,
                [ EvInput (py "Choose a resolution (e.g., 720p): ");
                  EvPrint (py "Invalid resolution. Please choose from: "
                           ++ str_join (py ", ") resolutions) ])
          ++ [EvInput (py "Choose a resolution (e.g., 720p): ")] |}).
Proof.
  intros Hbad. unfold prompt_resolution.
  apply choose_resolution_eof; [done | lia | done].
Qed.

Lemma prompt_resolution_eof_witness :
  (prompt_resolution [py "720p"; py "480p"] (start ∅ [py "1080p"])).1
  = Raise (Exn EOFError (py "EOF when reading a line")).
Proof.
  rewrite (prompt_resolution_eof [py "720p"; py "480p"]
             (start ∅ [py "1080p"])); [done|].
  repeat constructor. apply (bool_decide_unpack _). vm_compute. exact I.
Defined.

Lemma download_mp4_catalogue_error_witness :
  (download_mp4 broken_catalogue (py "url") None (start ∅ [])).1
  = Raise (Exn URLError (py "timed out")).
Proof.
  apply (download_mp4_catalogue_error broken_catalogue (py "url") None ∅ []
           {| yt_streams := Err (Exn URLError (py "timed out"));
              yt_title := Ok (py "My clip") |}).
  - by exists [], ∅.
  - reflexivity.
  - reflexivity.
  - reflexivity.
Defined.

(** X15. A catalogue that offers the resolution the user picks and has no
    audio-only stream with a bitrate label: after the prompt the job prints
    that no suitable audio stream was found and returns; nothing is
    downloaded and no temporary file is made. *)
Theorem download_mp4_no_audio
    (e : env) (url : str) (output_dir : option str)
    (fs : gset str) (line : str) (rest : list str) (yt : YouTube)
    (streams : list Stream) (stderr0 : str) (created0 : gset str) :
  env_run e ffmpeg_version_cmd = Completed 0 stderr0 created0 →
  env_makedirs_fails e (default (default_output_dir e) output_dir) = false →
  env_youtube e url = Ok yt →
  yt_streams yt = Ok streams →
  lower line ∈ available_resolutions streams →
  (∀ a, a ∈ streams → only_audio a = true → abr a = None) →
  download_mp4 e url output_dir (start fs (line :: rest))
  = (Ret tt,
     {| w_fs := fs ∪ created0
                ∪ {[default (default_output_dir e) output_dir]};
        w_stdin := rest; w_locals := ∅;
        w_trace :=
          [ EvRun ffmpeg_version_cmd;
            EvMakedirs (default (default_output_dir e) output_dir);
            EvYouTube url; EvStreams;
            EvPrint (py "Available resolutions: "
                     ++ str_join (py ", ") (available_resolutions streams));
            EvInput (py "Choose a resolution (e.g., 720p): ");
            EvStreams; EvStreams;
            EvPrint (py "Error: No suitable audio stream found.") ] |}).
Proof.
  intros Hrun Hmk Hyt Hstreams Hline Hsilent.
  destruct (select_video_spec streams (lower line)) as (v & Hv & _).
  { by apply elem_of_available_resolutions in Hline as [? _]. }
  { by apply elem_of_available_resolutions in Hline as [_ ?]. }
  assert (select_audio streams = None) as Ha.
  { apply first_desc_order_by_None. intros a Ha.
    apply elem_of_streams_filter in Ha as [Hp Ha].
    apply Hsilent; [done|]. by apply andb_true_iff in Hp as [_ ?]. }
  job_begin Hrun Hmk.
  erewrite (bind_ret (try_except _ _)) by (by apply try_YouTube_ok).
  cbv beta iota.
  erewrite (bind_ret (get_available_resolutions yt)); cycle 1.
  { rewrite get_available_resolutions_run, Hstreams. reflexivity. }
  destruct (available_resolutions streams) as [|r0 rs] eqn:Hres;
    [by apply elem_of_nil in Hline|].
  rewrite <- Hres in Hline |- *. clear Hres r0 rs.
  erewrite (bind_ret (print _)) by reflexivity. norm_world.
  erewrite (bind_ret (prompt_resolution _)); cycle 1.
  { apply (prompt_resolution_accepts _ _ line rest);
      [reflexivity | exact Hline]. }
  norm_world.
  erewrite (bind_ret (get_streams yt)); cycle 1.
  { rewrite get_streams_run, Hstreams. reflexivity. }
  rewrite Hv.
  erewrite (bind_ret (get_streams yt)); cycle 1.
  { rewrite get_streams_run, Hstreams. reflexivity. }
  rewrite Ha. reflexivity.
Qed.

Lemma download_mp4_no_audio_witness :
  (download_mp4 (surroundings catalogue_silent run_ok) (py "url")
     (Some (py "out")) (start ∅ [py "720p"])).1 = Ret tt ∧
  w_fs (download_mp4 (surroundings catalogue_silent run_ok) (py "url")
          (Some (py "out")) (start ∅ [py "720p"])).2
  = ∅ ∪ ∅ ∪ {[ py "out" ]}.
Proof.
  rewrite (download_mp4_no_audio (surroundings catalogue_silent run_ok)
             (py "url") (Some (py "out")) ∅ (py "720p") []
             {| yt_streams := Ok catalogue_silent;
                yt_title := Ok (py "My clip") |}
             catalogue_silent [] ∅).
  - done.
  - reflexivity.
  - reflexivity.
  - reflexivity.
  - reflexivity.
  - apply (bool_decide_unpack _). vm_compute. exact I.
  - intros a Ha Hp.
    repeat (apply elem_of_cons in Ha as [->|Ha]; [done|]).
    by apply elem_of_nil in Ha.
Defined.

(** ** What the jobs leave of the files *)

Section respects.
Context (R : world → world → Prop) `{!Reflexive R, !Transitive R}.
Hypothesis R_locals :
  ∀ fs stdin tr fs' stdin' tr' l l' l1 l2,
    R (World fs stdin l tr) (World fs' stdin' l' tr') →
    R (World fs stdin l1 tr) (World fs' stdin' l2 tr').

Lemma respects_ret {A} (a : A) : respects R (ret a).
Proof. by intros w. Qed.

Lemma respects_raise {A} ex : respects R (@raise A ex).
Proof. by intros w. Qed.

Lemma respects_diverge {A} : respects R (fun w => (@Diverge A, w)).
Proof. by intros w. Qed.

Lemma respects_bind {A B} (m : M A) (k : A → M B) :
  respects R m → (∀ a, respects R (k a)) → respects R (bind m k).
Proof.
  intros Hm Hk w. unfold bind. specialize (Hm w).
  destruct (m w) as [[a|ex|] w']; simpl in *; [|done|done].
  etrans; [exact Hm | apply Hk].
Qed.

Lemma respects_try_except {A} (body : M A) handlers :
  respects R body →
  Forall (λ ch, ∀ ex, respects R (ch.2 ex)) handlers →
  respects R (try_except body handlers).
Proof.
  intros Hb Hh w. unfold try_except. specialize (Hb w).
  destruct (body w) as [[a|ex|] w']; simpl in *; [done| |done].
  destruct (find_handler ex handlers) as [h|] eqn:Hf; [|done].
  etrans; [exact Hb|].
  clear Hb. induction Hh as [|[c h'] handlers Hh _ IH]; simpl in Hf;
    [done|].
  destruct (isinstance ex c); [|by apply IH]. injection Hf as <-. apply Hh.
Qed.

Lemma respects_try_finally {A} (body : M A) final :
  respects R body → respects R final → respects R (try_finally body final).
Proof.
  intros Hb Hf w. unfold try_finally. specialize (Hb w).
  destruct (body w) as [[a|ex|] w']; simpl in *; [| |done];
    specialize (Hf w'); destruct (final w') as [[[]|ex'|] w'']; simpl in *;
    by etrans.
Qed.

Lemma respects_call {A} (body : M A) : respects R body → respects R (call body).
Proof.
  intros Hb w. unfold call.
  specialize (Hb {| w_fs := w_fs w; w_stdin := w_stdin w; w_locals := ∅;
                    w_trace := w_trace w |}).
  destruct (body _) as [r [fs' stdin' l' tr']]. destruct w. simpl in *.
  by eapply R_locals.
Qed.

Lemma respects_if {A} (b : bool) (m1 m2 : M A) :
  respects R m1 → respects R m2 → respects R (if b then m1 else m2).
Proof. by destruct b. Qed.

Lemma respects_lift_res {A} (r : res A) : respects R (lift_res r).
Proof. destruct r; [apply respects_ret | apply respects_raise]. Qed.

End respects.

Section same_files.
Context (temps : gset str).

#[global] Instance same_files_refl : Reflexive (same_files_but temps).
Proof. by intros w p. Qed.

#[global] Instance same_files_trans : Transitive (same_files_but temps).
Proof. intros w1 w2 w3 H12 H23 p Hp Ht. by apply H23; [apply H12|]. Qed.

Lemma same_files_locals :
  ∀ fs stdin tr fs' stdin' tr' (l l' l1 l2 : gmap string str),
    same_files_but temps (World fs stdin l tr) (World fs' stdin' l' tr') →
    same_files_but temps (World fs stdin l1 tr) (World fs' stdin' l2 tr').
Proof. done. Qed.

(** An action that removes no file. *)
Lemma keeps_grow {A} (f : M A) :
  (∀ w, w_fs w ⊆ w_fs (f w).2) → respects (same_files_but temps) f.
Proof. intros H w p Hp _. by apply H. Qed.

Lemma keeps_emit ev : respects (same_files_but temps) (emit ev).
Proof. by apply keeps_grow. Qed.

Lemma keeps_input prompt : respects (same_files_but temps) (input prompt).
Proof. apply keeps_grow. intros w. unfold input. by destruct (w_stdin w). Qed.

Lemma keeps_add_files ps : respects (same_files_but temps) (add_files ps).
Proof. apply keeps_grow. intros w. simpl. set_solver. Qed.

Lemma keeps_os_path_exists p :
  respects (same_files_but temps) (os_path_exists p).
Proof. by apply keeps_grow. Qed.

Lemma keeps_del_file p :
  p ∈ temps → respects (same_files_but temps) (del_file p).
Proof. intros Hp w q Hq Hnt. simpl. set_solver. Qed.

End same_files.

Ltac keeps_step T :=
  first
    [ apply (respects_bind (same_files_but T)); [|intros ?]
    | apply (respects_try_except (same_files_but T));
        [|repeat constructor; intros ?; simpl]
    | apply (respects_try_finally (same_files_but T))
    | apply (respects_call (same_files_but T));
        [apply same_files_locals|]
    | apply (respects_if (same_files_but T))
    | apply (respects_ret (same_files_but T))
    | apply (respects_raise (same_files_but T))
    | apply (respects_diverge (same_files_but T))
    | apply (respects_lift_res (same_files_but T))
    | apply keeps_emit | apply keeps_input | apply keeps_add_files
    | apply keeps_os_path_exists
    | match goal with
      | |- respects _ (match ?x with _ => _ end) => destruct x
      end ].

Lemma keeps_remove_temp T e t :
  t ∈ T → respects (same_files_but T) (remove_temp e t).
Proof.
  intros Ht. unfold remove_temp, os_remove. repeat keeps_step T.
  by apply keeps_del_file.
Qed.

Lemma keeps_subprocess_run T e cmd :
  respects (same_files_but T) (subprocess_run e cmd).
Proof. unfold subprocess_run. repeat keeps_step T. Qed.

Lemma keeps_download T e s output_path filename :
  respects (same_files_but T) (download e s output_path filename).
Proof. unfold download. repeat keeps_step T. Qed.

Lemma keeps_choose_resolution T fuel resolutions :
  respects (same_files_but T) (choose_resolution fuel resolutions).
Proof.
  induction fuel as [|fuel IH]; simpl; repeat keeps_step T. apply IH.
Qed.

Lemma keeps_prompt_resolution T resolutions :
  respects (same_files_but T) (prompt_resolution resolutions).
Proof. intros w. apply keeps_choose_resolution. Qed.

Lemma keeps_ensure_unique_filename_now T p :
  respects (same_files_but T) (ensure_unique_filename_now p).
Proof.
  apply keeps_grow. intros w. unfold ensure_unique_filename_now.
  by destruct (ensure_unique_filename _ _).
Qed.

(** X16. In every run of [download_mp4], whatever happens in it, a file that
    was there before and is neither [video_temp.mp4] nor [audio_temp.m4a]
    of the output directory is there afterwards: the job deletes nothing
    but its two temporary files. *)
Theorem download_mp4_keeps_files
    (e : env) (url : str) (output_dir : option str) (w : world) (p : str) :
  p ∈ w_fs w →
  p ≠ path_join (default (default_output_dir e) output_dir)
        (py "video_temp.mp4") →
  p ≠ path_join (default (default_output_dir e) output_dir)
        (py "audio_temp.m4a") →
  p ∈ w_fs (download_mp4 e url output_dir w).2.
Proof.
  intros Hp Hv Ha.
  set (T := ({[ path_join (default (default_output_dir e) output_dir)
                  (py "video_temp.mp4");
                path_join (default (default_output_dir e) output_dir)
                  (py "audio_temp.m4a") ]} : gset str)).
  assert (respects (same_files_but T) (download_mp4 e url output_dir))
    as Hkeeps.
  { unfold download_mp4, check_ffmpeg, os_makedirs, new_YouTube,
      get_available_resolutions, get_streams, get_title, print.
    repeat first
      [ apply keeps_remove_temp; set_solver
      | apply keeps_subprocess_run | apply keeps_download
      | apply keeps_prompt_resolution
      | apply keeps_ensure_unique_filename_now
      | keeps_step T ]. }
  apply (Hkeeps w p Hp). set_solver.
Qed.

Lemma download_mp4_keeps_files_witness :
  py "out/holiday.mp4"
  ∈ w_fs (download_mp4 leftovers (py "url") (Some (py "out"))
            (start {[ py "out/holiday.mp4" ]} [py "720p"])).2.
Proof.
  apply (download_mp4_keeps_files leftovers (py "url") (Some (py "out"))
           (start {[ py "out/holiday.mp4" ]} [py "720p"])
           (py "out/holiday.mp4")).
  - apply (bool_decide_unpack _). vm_compute. exact I.
  - discriminate.
  - discriminate.
Defined.

(** ** [download_mp3] *)

(** X17. A catalogue without an audio-only stream that has a bitrate label:
    [download_mp3] prints that no suitable audio stream was found, and the
    [return] of line 143 runs the [finally] block, which reads the
    unassigned [temp_file]: the job ends with [UnboundLocalError]. *)
Theorem download_mp3_no_audio
    (e : env) (url : str) (output_dir : option str)
    (fs : gset str) (stdin : list str) (yt : YouTube)
    (streams : list Stream) :
  transcoder_available e →
  env_makedirs_fails e (default (default_output_dir e) output_dir) = false →
  env_youtube e url = Ok yt →
  yt_streams yt = Ok streams →
  (∀ a, a ∈ streams → only_audio a = true → abr a = None) →
  let run := download_mp3 e url output_dir (start fs stdin) in
  run.1 = Raise (unbound "temp_file") ∧
  w_trace run.2
  = [ EvRun ffmpeg_version_cmd;
      EvMakedirs (default (default_output_dir e) output_dir);
      EvYouTube url; EvStreams;
      EvPrint (py "Error: No suitable audio stream found.") ].
Proof.
  intros (stderr0 & created0 & Hrun) Hmk Hyt Hstreams Hsilent run.
  assert (select_mp3_audio streams = None) as Ha.
  { apply first_desc_order_by_None. intros a Ha.
    apply elem_of_streams_filter in Ha as [Hp Ha]. by apply Hsilent. }
  eassert (Heq : run = _).
  { subst run. job_begin Hrun Hmk.
    unfold try_finally, try_except.
    erewrite (bind_ret (new_YouTube _ _)); cycle 1.
    { rewrite new_YouTube_run, Hyt. reflexivity. }
    erewrite (bind_ret (get_streams yt)); cycle 1.
    { rewrite get_streams_run, Hstreams. reflexivity. }
    rewrite Ha. reflexivity. }
  by rewrite Heq.
Qed.

Lemma download_mp3_no_audio_witness :
  (download_mp3 (surroundings catalogue_silent run_ok) (py "url") None
     (start ∅ [])).1
  = Raise (unbound "temp_file").
Proof.
  apply (download_mp3_no_audio (surroundings catalogue_silent run_ok)
           (py "url") None ∅ []
           {| yt_streams := Ok catalogue_silent;
              yt_title := Ok (py "My clip") |}
           catalogue_silent).
  - by exists [], ∅.
  - reflexivity.
  - reflexivity.
  - reflexivity.
  - intros a Ha Hp.
    repeat (apply elem_of_cons in Ha as [->|Ha]; [done|]).
    by apply elem_of_nil in Ha.
Defined.

Lemma download_run_default e s output_path w :
  env_download e s (path_join output_path (default_filename s))
  = Downloaded →
  download e s output_path None w
  = (Ret (path_join output_path (default_filename s)),
     {| w_fs := w_fs w ∪ {[path_join output_path (default_filename s)]};
        w_stdin := w_stdin w; w_locals := w_locals w;
        w_trace :=
          w_trace w
          ++ [EvDownload s (path_join output_path (default_filename s))] |}).
Proof. intros H. unfold download, bind, emit. simpl. by rewrite H. Qed.


(** *** Jobs end *)

Lemma ends_ret {A} (a : A) : ends (ret a).
Proof. by intros w. Qed.

Lemma ends_raise {A} ex : ends (@raise A ex).
Proof. by intros w. Qed.

Lemma ends_bind {A B} (m : M A) (k : A → M B) :
  ends m → (∀ a, ends (k a)) → ends (bind m k).
Proof.
  intros Hm Hk w. unfold bind. specialize (Hm w).
  destruct (m w) as [[a|ex|] w']; simpl in *; [apply Hk|done|done].
Qed.

Lemma ends_try_except {A} (body : M A) handlers :
  ends body →
  Forall (λ ch, ∀ ex, ends (ch.2 ex)) handlers →
  ends (try_except body handlers).
Proof.
  intros Hb Hh w. unfold try_except. specialize (Hb w).
  destruct (body w) as [[a|ex|] w']; simpl in *; [done| |done].
  destruct (find_handler ex handlers) as [h|] eqn:Hf; [|done].
  induction Hh as [|[c h'] handlers Hh _ IH]; simpl in Hf; [done|].
  destruct (isinstance ex c); [|by apply IH]. injection Hf as <-. apply Hh.
Qed.

Lemma ends_try_finally {A} (body : M A) final :
  ends body → ends final → ends (try_finally body final).
Proof.
  intros Hb Hf w. unfold try_finally. specialize (Hb w).
  destruct (body w) as [[a|ex|] w']; simpl in *; [| |done];
    specialize (Hf w'); by destruct (final w') as [[[]|ex'|] w''].
Qed.

Lemma ends_call {A} (body : M A) : ends body → ends (call body).
Proof.
  intros Hb w. unfold call.
  specialize (Hb {| w_fs := w_fs w; w_stdin := w_stdin w; w_locals := ∅;
                    w_trace := w_trace w |}).
  by destruct (body _) as [r w'].
Qed.

Lemma ends_if {A} (b : bool) (m1 m2 : M A) :
  ends m1 → ends m2 → ends (if b then m1 else m2).
Proof. by destruct b. Qed.

Lemma ends_lift_res {A} (r : res A) : ends (lift_res r).
Proof. destruct r; [apply ends_ret | apply ends_raise]. Qed.

Lemma ends_emit ev : ends (emit ev).
Proof. by intros w. Qed.

Lemma ends_add_files ps : ends (add_files ps).
Proof. by intros w. Qed.

Lemma ends_del_file p : ends (del_file p).
Proof. by intros w. Qed.

Lemma ends_os_path_exists p : ends (os_path_exists p).
Proof. by intros w. Qed.

Lemma ends_set_local name v : ends (set_local name v).
Proof. by intros w. Qed.

Lemma ends_get_local name : ends (get_local name).
Proof. intros w. unfold get_local. by destruct (_ !! _). Qed.

Lemma ends_input prompt : ends (input prompt).
Proof. intros w. unfold input. by destruct (w_stdin w). Qed.

Lemma ends_ensure_unique_filename_now p : ends (ensure_unique_filename_now p).
Proof.
  intros w. unfold ensure_unique_filename_now.
  by destruct (ensure_unique_filename_total (w_fs w) p) as [r ->].
Qed.

Ltac ends_step :=
  first
    [ apply ends_bind; [|intros ?]
    | apply ends_try_except; [|repeat constructor; intros ?; simpl]
    | apply ends_try_finally
    | apply ends_call
    | apply ends_if
    | apply ends_ret | apply ends_raise | apply ends_lift_res
    | apply ends_emit | apply ends_add_files | apply ends_del_file
    | apply ends_os_path_exists | apply ends_set_local
    | apply ends_get_local | apply ends_input
    | apply ends_ensure_unique_filename_now
    | match goal with
      | |- ends (match ?x with _ => _ end) => destruct x
      end ].

(** The prompt ends: with every line read the standard input is one line
    shorter, and at its end [input] raises. *)
Lemma ends_choose_resolution resolutions fuel :
  ∀ w, length (w_stdin w) < fuel →
       (choose_resolution fuel resolutions w).1 ≠ Diverge.
Proof.
  induction fuel as [|fuel IH]; intros w Hfuel; [lia|].
  simpl. unfold bind at 1, input.
  destruct (w_stdin w) as [|line rest] eqn:Hin; [done|]. simpl.
  case_bool_decide; [done|].
  erewrite (bind_ret (print _)) by reflexivity.
  apply IH. simpl in *. lia.
Qed.

Lemma ends_prompt_resolution resolutions :
  ends (prompt_resolution resolutions).
Proof. intros w. apply ends_choose_resolution. lia. Qed.

Ltac ends_job :=
  repeat first [ apply ends_prompt_resolution | ends_step ].

(** *** Local variables stay *)

#[global] Instance same_locals_refl : Reflexive same_locals.
Proof. by intros w. Qed.

#[global] Instance same_locals_trans : Transitive same_locals.
Proof. intros w1 w2 w3. unfold same_locals. congruence. Qed.








(** ** Every job ends *)

Lemma ends_download_mp4 e url output_dir :
  ends (download_mp4 e url output_dir).
Proof.
  unfold download_mp4, check_ffmpeg, subprocess_run, os_makedirs,
    new_YouTube, get_available_resolutions, get_streams, get_title, print,
    remove_temp, os_remove, download.
  ends_job.
Qed.

Lemma ends_download_mp3 e url output_dir :
  ends (download_mp3 e url output_dir).
Proof.
  unfold download_mp3, check_ffmpeg, subprocess_run, os_makedirs,
    new_YouTube, get_streams, get_title, print, remove_temp, os_remove,
    download.
  ends_job.
Qed.

(** The body of the [try] block of [download_youtube] ends. *)
Lemma try_except_exception (body : M unit) (msg : exn → str) w :
  ends body →
  (try_except body [(Exception, fun ex => print (msg ex))] w).1 = Ret tt.
Proof.
  intros Hends. unfold try_except. specialize (Hends w).
  by destruct (body w) as [[[]|ex|] w'].
Qed.

(** X19. Every run of [download_mp4], [download_mp3] and [download_youtube]
    ends, by a return or by an exception, whatever the surroundings answer
    and the user types: the prompt for the resolution stops at the end of
    the input at the latest, and the search for a free file name stops on
    every file system. *)
Theorem jobs_end (e : env) (url : str) (output_dir : option str)
    (output_format : str) :
  ends (download_mp4 e url output_dir) ∧
  ends (download_mp3 e url output_dir) ∧
  ends (download_youtube e url output_format).
Proof.
  split; [apply ends_download_mp4|]. split; [apply ends_download_mp3|].
  unfold download_youtube, new_YouTube, get_streams, print, download_of,
    download, audio_clip, os_remove.
  ends_job.
Qed.

(** ** [download_youtube] *)

(** X20. No exception leaves [download_youtube]: whatever is raised in it
    (the URL, the catalogue, a missing stream, the download, the
    conversion, the deletion) is caught by its one handler and printed, and
    the function returns. The exceptions meant are those of the classes of
    [exn_class], which all derive from [Exception]; an interruption by the
    user is none of them. *)
Theorem download_youtube_returns
    (e : env) (url : str) (output_format : str) (w : world) :
  (download_youtube e url output_format w).1 = Ret tt.
Proof.
  unfold download_youtube, call.
  match goal with
  | |- context [try_except ?b ?h ?w0] =>
      pose proof (try_except_exception b (λ ex, py "Error: " ++ exn_msg ex)
                    w0) as H
  end.
  destruct (try_except _ _ _) as [r w']. simpl in *. apply H.
  unfold new_YouTube, get_streams, print, download_of, download, audio_clip,
    os_remove.
  ends_job.
Qed.

(** X21. The [mp3] branch of [download_youtube] when the conversion fails:
    the error is printed and the function returns, and the downloaded
    audio file stays on disk, since the branch deletes it only after a
    conversion that worked. *)
Theorem download_youtube_mp3_conversion_fails
    (e : env) (url : str) (fs : gset str) (stdin : list str) (yt : YouTube)
    (streams : list Stream) (s : Stream) (ex : exn) :
  let out_file := path_join (env_cwd e) (default_filename s) in
  let mp3_file := (splitext out_file).1 ++ py ".mp3" in
  env_youtube e url = Ok yt →
  yt_streams yt = Ok streams →
  select_first_audio streams = Some s →
  env_download e s out_file = Downloaded →
  env_audio_clip e out_file mp3_file = Some ex →
  download_youtube e url (py "mp3") (start fs stdin)
  = (Ret tt,
     {| w_fs := fs ∪ {[out_file]}; w_stdin := stdin; w_locals := ∅;
        w_trace :=
          [ EvYouTube url; EvStreams; EvDownload s out_file;
            EvAudioClip out_file mp3_file;
            EvPrint (py "Error: " ++ exn_msg ex) ] |}).
Proof.
  intros out_file mp3_file Hyt Hstreams Hsel Hdl Hclip.
  unfold download_youtube, call, try_except.
  erewrite (bind_ret (new_YouTube _ _)); cycle 1.
  { rewrite new_YouTube_run, Hyt. reflexivity. }
  rewrite bool_decide_eq_false_2 by done.
  rewrite bool_decide_eq_true_2 by done.
  erewrite (bind_ret (get_streams yt)); cycle 1.
  { rewrite get_streams_run, Hstreams. reflexivity. }
  rewrite Hsel. unfold download_of.
  erewrite (bind_ret (download _ _ _ _)) by (by apply download_run_default).
  fold out_file. fold mp3_file.
  erewrite bind_raise; cycle 1.
  { unfold audio_clip, bind, emit. simpl. rewrite Hclip. reflexivity. }
  reflexivity.
Qed.

Lemma download_youtube_mp3_conversion_fails_witness :
  let run :=
    download_youtube (no_codec catalogue_3) (py "url") (py "mp3")
      (start ∅ []) in
  run.1 = Ret tt ∧ py "/work/clip.m4a" ∈ w_fs run.2.
Proof.
  rewrite (download_youtube_mp3_conversion_fails (no_codec catalogue_3)
             (py "url") ∅ []
             {| yt_streams := Ok catalogue_3; yt_title := Ok (py "My clip") |}
             catalogue_3 (audio_stream 140 "mp4" "128kbps")
             (Exn Exception (py "no codec")));
    try reflexivity.
  split; [done|]. apply (bool_decide_unpack _). vm_compute. exact I.
Defined.

(** X22. The [mp3] branch of [download_youtube] when all goes well: the
    first audio-only stream of the catalogue is downloaded, converted into
    a file named after it with the extension [.mp3], and the downloaded
    file is deleted; the new file is there afterwards unless it bears the
    very name of the downloaded one. *)
Theorem download_youtube_mp3_success
    (e : env) (url : str) (fs : gset str) (stdin : list str) (yt : YouTube)
    (streams : list Stream) (s : Stream) :
  let out_file := path_join (env_cwd e) (default_filename s) in
  let mp3_file := (splitext out_file).1 ++ py ".mp3" in
  env_youtube e url = Ok yt →
  yt_streams yt = Ok streams →
  select_first_audio streams = Some s →
  env_download e s out_file = Downloaded →
  env_audio_clip e out_file mp3_file = None →
  env_remove_fails e out_file = false →
  download_youtube e url (py "mp3") (start fs stdin)
  = (Ret tt,
     {| w_fs := (fs ∪ {[out_file]} ∪ {[mp3_file]}) ∖ {[out_file]};
        w_stdin := stdin; w_locals := ∅;
        w_trace :=
          [ EvYouTube url; EvStreams; EvDownload s out_file;
            EvAudioClip out_file mp3_file; EvRemove out_file;
            EvPrint (py "Downloaded MP3: " ++ mp3_file) ] |}).
Proof.
  intros out_file mp3_file Hyt Hstreams Hsel Hdl Hclip Hrm.
  unfold download_youtube, call, try_except.
  erewrite (bind_ret (new_YouTube _ _)); cycle 1.
  { rewrite new_YouTube_run, Hyt. reflexivity. }
  rewrite bool_decide_eq_false_2 by done.
  rewrite bool_decide_eq_true_2 by done.
  erewrite (bind_ret (get_streams yt)); cycle 1.
  { rewrite get_streams_run, Hstreams. reflexivity. }
  rewrite Hsel. unfold download_of.
  erewrite (bind_ret (download _ _ _ _)) by (by apply download_run_default).
  fold out_file. fold mp3_file.
  erewrite (bind_ret (audio_clip _ _ _)); cycle 1.
  { unfold audio_clip, bind, emit, add_files. simpl. rewrite Hclip.
    reflexivity. }
  erewrite (bind_ret (os_remove _ _)); cycle 1.
  { unfold os_remove, bind, emit, os_path_exists, path_exists, del_file.
    simpl. rewrite bool_decide_eq_true_2 by set_solver. simpl.
    rewrite Hrm. reflexivity. }
  reflexivity.
Qed.

Lemma download_youtube_mp3_success_witness :
  let run :=
    download_youtube (surroundings catalogue_3 run_ok) (py "url") (py "mp3")
      (start ∅ []) in
  run.1 = Ret tt ∧
  py "/work/clip.mp3" ∈ w_fs run.2 ∧ (py "/work/clip.m4a" ∉ w_fs run.2).
Proof.
  rewrite (download_youtube_mp3_success (surroundings catalogue_3 run_ok)
             (py "url") ∅ []
             {| yt_streams := Ok catalogue_3; yt_title := Ok (py "My clip") |}
             catalogue_3 (audio_stream 140 "mp4" "128kbps"));
    try reflexivity.
  split; [done|].
  split; apply (bool_decide_unpack _); vm_compute; exact I.
Defined.

(** X23. An output format other than [mp4] and [mp3]: [download_youtube]
    has already made the [YouTube] object when it looks at the format; it
    then prints that the format is unsupported and returns, with nothing
    downloaded and the files as they were. *)
Theorem download_youtube_unsupported
    (e : env) (url : str) (output_format : str) (fs : gset str)
    (stdin : list str) (yt : YouTube) :
  env_youtube e url = Ok yt →
  output_format ≠ py "mp4" → output_format ≠ py "mp3" →
  download_youtube e url output_format (start fs stdin)
  = (Ret tt,
     {| w_fs := fs; w_stdin := stdin; w_locals := ∅;
        w_trace :=
          [ EvYouTube url;
            EvPrint (py "Unsupported format. Use 'mp4' or 'mp3'.") ] |}).
Proof.
  intros Hyt Hmp4 Hmp3.
  unfold download_youtube, call, try_except.
  erewrite (bind_ret (new_YouTube _ _)); cycle 1.
  { rewrite new_YouTube_run, Hyt. reflexivity. }
  rewrite !bool_decide_eq_false_2 by done.
  reflexivity.
Qed.

Lemma download_youtube_unsupported_witness :
  download_youtube (surroundings catalogue_3 run_ok) (py "url") (py "avi")
    (start ∅ [])
  = (Ret tt,
     {| w_fs := ∅; w_stdin := []; w_locals := ∅;
        w_trace :=
          [ EvYouTube (py "url");
            EvPrint (py "Unsupported format. Use 'mp4' or 'mp3'.") ] |}).
Proof.
  apply (download_youtube_unsupported (surroundings catalogue_3 run_ok)
           (py "url") (py "avi") ∅ []
           {| yt_streams := Ok catalogue_3; yt_title := Ok (py "My clip") |}).
  - reflexivity.
  - discriminate.
  - discriminate.
Defined.

(** ** The entry blocks *)

Lemma input_run prompt w line rest :
  w_stdin w = line :: rest →
  input prompt w
  = (Ret line,
     {| w_fs := w_fs w; w_stdin := rest; w_locals := w_locals w;
        w_trace := w_trace w ++ [EvInput prompt] |}).
Proof. intros H. unfold input. by rewrite H. Qed.

Lemma input_eof prompt w :
  w_stdin w = [] →
  input prompt w
  = (Raise (Exn EOFError (py "EOF when reading a line")),
     {| w_fs := w_fs w; w_stdin := []; w_locals := w_locals w;
        w_trace := w_trace w ++ [EvInput prompt] |}).
Proof. intros H. unfold input. by rewrite H. Qed.

(** X24. A format that is neither [mp4] nor [mp3], the directory left
    empty: the entry block of TY_To_mp3_or_mp4.py reads its three lines,
    prints that the format is invalid and ends; the transcoder is not
    looked for and the video host is not reached. *)
Theorem ty_main_invalid_format
    (e : env) (fs : gset str) (url fmt_line dir_line : str)
    (rest : list str) :
  lower fmt_line ≠ py "mp4" → lower fmt_line ≠ py "mp3" →
  strip dir_line = [] →
  ty_main e (start fs (url :: fmt_line :: dir_line :: rest))
  = (Ret tt,
     {| w_fs := fs; w_stdin := rest; w_locals := ∅;
        w_trace :=
          [ EvInput (py "Enter YouTube URL: ");
            EvInput (py "Choose format (mp4/mp3): ");
            EvInput (py "Enter output directory (press Enter for default ~/Downloads/YouTube): ");
            EvPrint (py "Error: Invalid format. Please choose 'mp4' or 'mp3'.")
          ] |}).
Proof.
  intros Hmp4 Hmp3 Hdir. unfold ty_main.
  erewrite (bind_ret (input _)) by (by apply input_run).
  erewrite (bind_ret (input _)) by (by apply input_run).
  erewrite (bind_ret (input _)) by (by apply input_run).
  rewrite Hdir. rewrite (bool_decide_eq_true_2 ([] = [])) by done.
  erewrite (bind_ret (ret _)) by reflexivity.
  by rewrite !bool_decide_eq_false_2 by done.
Qed.

Lemma ty_main_invalid_format_witness :
  (ty_main (surroundings catalogue_3 run_ok)
     (start ∅ [py "url"; py "AVI"; py "  "])).1
  = Ret tt.
Proof.
  rewrite (ty_main_invalid_format (surroundings catalogue_3 run_ok) ∅
             (py "url") (py "AVI") (py "  ") []); [done|..].
  - discriminate.
  - discriminate.
  - reflexivity.
Defined.

(** X25. A directory that cannot be made: the entry block prints that the
    output directory is invalid and goes on with the default directory,
    that is, it runs the job with no directory given. *)
Theorem ty_main_bad_directory
    (e : env) (fs : gset str) (url fmt_line dir_line : str)
    (rest : list str) :
  strip dir_line ≠ [] →
  env_makedirs_fails e (strip dir_line) = true →
  lower fmt_line = py "mp4" →
  ty_main e (start fs (url :: fmt_line :: dir_line :: rest))
  = download_mp4 e url None
      {| w_fs := fs; w_stdin := rest; w_locals := ∅;
         w_trace :=
           [ EvInput (py "Enter YouTube URL: ");
             EvInput (py "Choose format (mp4/mp3): ");
             EvInput (py "Enter output directory (press Enter for default ~/Downloads/YouTube): ");
             EvMakedirs (strip dir_line);
             EvPrint (py "Error: Invalid output directory. Using default ~/Downloads/YouTube.")
           ] |}.
Proof.
  intros Hdir Hmk Hfmt. unfold ty_main.
  erewrite (bind_ret (input _)) by (by apply input_run).
  erewrite (bind_ret (input _)) by (by apply input_run).
  erewrite (bind_ret (input _)) by (by apply input_run).
  rewrite (bool_decide_eq_false_2 (strip dir_line = [])) by done.
  erewrite (bind_ret (try_except _ _)); cycle 1.
  { erewrite try_except_raise; cycle 1.
    { apply bind_raise. unfold os_makedirs, bind, emit. simpl.
      rewrite Hmk. reflexivity. }
    cbn [find_handler isinstance subclass exn_cls].
    erewrite (bind_ret (print _)) by reflexivity. reflexivity. }
  rewrite Hfmt. by rewrite bool_decide_eq_true_2.
Qed.

Lemma ty_main_bad_directory_witness :
  EvMakedirs (py "/home/user/Downloads/YouTube")
  ∈ w_trace (ty_main (read_only catalogue_3)
               (start ∅ [py "url"; py "mp4"; py "/nowhere"; py "720p"])).2.
Proof.
  rewrite (ty_main_bad_directory (read_only catalogue_3) ∅ (py "url")
             (py "mp4") (py "/nowhere") [py "720p"]).
  - by apply (list_elem_of_lookup_2 _ 6).
  - discriminate.
  - reflexivity.
  - reflexivity.
Defined.

(** X26. With fewer than three lines on the standard input the entry block
    of TY_To_mp3_or_mp4.py ends with [EOFError], which its handler, meant
    for the interruption by the user, does not catch; no job is started. *)
Theorem ty_main_eof (e : env) (fs : gset str) (stdin : list str) :
  length stdin < 3 →
  let run := ty_main e (start fs stdin) in
  run.1 = Raise (Exn EOFError (py "EOF when reading a line")) ∧
  w_fs run.2 = fs ∧
  Forall (λ ev, ∃ prompt, ev = EvInput prompt) (w_trace run.2).
Proof.
  intros Hlen run. subst run. unfold ty_main.
  destruct stdin as [|l1 [|l2 [|l3 stdin]]]; [| | |simpl in Hlen; lia].
  - erewrite bind_raise by (by apply input_eof).
    repeat split; repeat constructor; by eexists.
  - erewrite (bind_ret (input _)) by (by apply input_run).
    erewrite bind_raise by (by apply input_eof).
    repeat split; repeat constructor; by eexists.
  - erewrite (bind_ret (input _)) by (by apply input_run).
    erewrite (bind_ret (input _)) by (by apply input_run).
    erewrite bind_raise by (by apply input_eof).
    repeat split; repeat constructor; by eexists.
Qed.

Lemma ty_main_eof_witness :
  (ty_main offline (start ∅ [py "url"; py "mp3"])).1
  = Raise (Exn EOFError (py "EOF when reading a line")).
Proof.
  apply (ty_main_eof offline ∅ [py "url"; py "mp3"]). simpl. lia.
Defined.

(** X27. The entry block of Link_to_YT.py, given its two lines, always ends
    normally, whatever happens in the job: the format is taken in lower
    case and [download_youtube] lets no exception out. With fewer than two
    lines it ends with [EOFError]. *)
Theorem link_main_returns (e : env) (fs : gset str) (stdin : list str) :
  (link_main e (start fs stdin)).1
  = (if decide (2 ≤ length stdin) then Ret tt
     else Raise (Exn EOFError (py "EOF when reading a line"))).
Proof.
  unfold link_main.
  destruct stdin as [|l1 [|l2 stdin]].
  - by erewrite bind_raise by (by apply input_eof).
  - erewrite (bind_ret (input _)) by (by apply input_run).
    by erewrite bind_raise by (by apply input_eof).
  - erewrite (bind_ret (input _)) by (by apply input_run).
    erewrite (bind_ret (input _)) by (by apply input_run).
    rewrite decide_True by (simpl; lia).
    unfold download_youtube, call.
    match goal with
    | |- context [try_except ?b ?h ?w0] =>
        pose proof (try_except_exception b
                      (λ ex, py "Error: " ++ exn_msg ex) w0) as H
    end.
    destruct (try_except _ _ _) as [r w']. simpl in *. apply H.
    unfold new_YouTube, get_streams, print, download_of, download,
      audio_clip, os_remove.
    ends_job.
Qed.

(** ** [download_mp4] when all goes well *)

Lemma subprocess_run_ok e cmd stderr created w :
  env_run e cmd = Completed 0 stderr created →
  subprocess_run e cmd w
  = (Ret tt,
     {| w_fs := w_fs w ∪ created; w_stdin := w_stdin w;
        w_locals := w_locals w; w_trace := w_trace w ++ [EvRun cmd] |}).
Proof.
  intros H. unfold subprocess_run, bind, emit. simpl. by rewrite H.
Qed.

(** X28. A [download_mp4] job in which nothing fails: the job returns and
    prints that the merge is complete; the path handed to the transcoder
    did not exist before the downloads; each temporary file whose deletion
    does not fail is gone; and what the transcoder has written, the
    temporary names apart, is there afterwards. *)
Theorem download_mp4_complete
    (e : env) (url : str) (output_dir : option str) (fs : gset str)
    (line : str) (rest : list str) (yt : YouTube) (streams : list Stream)
    (title : str) (v a : Stream) (final : str)
    (stderr : str) (created : gset str)
    (stderr0 : str) (created0 : gset str) :
  let od := default (default_output_dir e) output_dir in
  let video_file := path_join od (py "video_temp.mp4") in
  let audio_file := path_join od (py "audio_temp.m4a") in
  env_run e ffmpeg_version_cmd = Completed 0 stderr0 created0 →
  env_makedirs_fails e od = false →
  env_youtube e url = Ok yt →
  yt_streams yt = Ok streams →
  yt_title yt = Ok title →
  lower line ∈ available_resolutions streams →
  select_video streams (lower line) = Some v →
  select_audio streams = Some a →
  ensure_unique_filename (fs ∪ created0 ∪ {[od]})
    (path_join od (sanitize_filename title ++ py ".mp4")) = Some final →
  env_download e v video_file = Downloaded →
  env_download e a audio_file = Downloaded →
  env_run e (merge_cmd video_file audio_file final)
  = Completed 0 stderr created →
  let run := download_mp4 e url output_dir (start fs (line :: rest)) in
  run.1 = Ret tt ∧
  EvPrint (py "Download and merge complete: " ++ final) ∈ w_trace run.2 ∧
  (final ∉ fs ∪ created0 ∪ {[od]}) ∧
  (env_remove_fails e video_file = false → video_file ∉ w_fs run.2) ∧
  (env_remove_fails e audio_file = false → audio_file ∉ w_fs run.2) ∧
  (∀ p, p ∈ created → p ≠ video_file → p ≠ audio_file → p ∈ w_fs run.2).
Proof.
  intros od video_file audio_file Hrun0 Hmk Hyt Hstreams Htitle Hline Hv Ha
    Hfinal Hdlv Hdla Hmerge run.
  assert (Hrun : ∃ wh w1 w2,
    run = (Ret tt, {| w_fs := w_fs w2; w_stdin := w_stdin w2;
                      w_locals := ∅; w_trace := w_trace w2 |}) ∧
    w_fs wh = fs ∪ created0 ∪ {[od]} ∪ {[video_file]} ∪ {[audio_file]}
              ∪ created ∧
    EvPrint (py "Download and merge complete: " ++ final) ∈ w_trace wh ∧
    (w_trace wh `prefix_of` w_trace w1 ∧
     if env_remove_fails e video_file
     then w_fs w1 = w_fs wh
     else w_fs w1 = w_fs wh ∖ {[video_file]}) ∧
    (w_trace w1 `prefix_of` w_trace w2 ∧
     if env_remove_fails e audio_file
     then w_fs w2 = w_fs w1
     else w_fs w2 = w_fs w1 ∖ {[audio_file]})).
  { subst run. job_begin Hrun0 Hmk. fold od.
    erewrite (bind_ret (try_except _ _)) by (by apply try_YouTube_ok).
    cbv beta iota.
    erewrite (bind_ret (get_available_resolutions yt)); cycle 1.
    { rewrite get_available_resolutions_run, Hstreams. reflexivity. }
    destruct (available_resolutions streams) as [|r0 rs] eqn:Hres;
      [by apply elem_of_nil in Hline|].
    rewrite <- Hres in Hline |- *. clear Hres r0 rs.
    erewrite (bind_ret (print _)) by reflexivity. norm_world.
    erewrite (bind_ret (prompt_resolution _)); cycle 1.
    { apply (prompt_resolution_accepts _ _ line rest);
        [reflexivity | exact Hline]. }
    norm_world.
    erewrite (bind_ret (get_streams yt)); cycle 1.
    { rewrite get_streams_run, Hstreams. reflexivity. }
    rewrite Hv.
    erewrite (bind_ret (get_streams yt)); cycle 1.
    { rewrite get_streams_run, Hstreams. reflexivity. }
    rewrite Ha.
    erewrite (bind_ret (get_title yt)); cycle 1.
    { rewrite get_title_run, Htitle. reflexivity. }
    erewrite (bind_ret (ensure_unique_filename_now _)); cycle 1.
    { unfold ensure_unique_filename_now. simpl. rewrite Hfinal.
      reflexivity. }
    fold video_file audio_file.
    unfold try_finally, try_except.
    erewrite (bind_ret (print _)) by reflexivity.
    erewrite (bind_ret (download e v _ _)) by (by apply download_run).
    erewrite (bind_ret (print _)) by reflexivity.
    erewrite (bind_ret (download e a _ _)) by (by apply download_run).
    erewrite (bind_ret (subprocess_run e _))
      by (by apply (subprocess_run_ok e _ stderr created)).
    unfold print at 1. unfold emit at 1.
    norm_world.
    match goal with
    | |- context [bind (remove_temp e video_file) _ ?w] => set (wh := w)
    end.
    destruct (remove_temp_run e video_file wh) as (w1 & Hr1 & _ & _ & H1).
    destruct (remove_temp_run e audio_file w1) as (w2 & Hr2 & _ & _ & H2).
    rewrite (bind_ret _ _ _ _ _ Hr1), Hr2.
    exists wh, w1, w2. split; [done|]. split; [done|].
    split; [subst wh; cbn [w_trace]; rewrite elem_of_app; right; by left|].
    split.
    - destruct H1 as [Hp1 H1]. split; [done|].
      by destruct (env_remove_fails e video_file); [destruct H1|].
    - destruct H2 as [Hp2 H2]. split; [done|].
      by destruct (env_remove_fails e audio_file); [destruct H2|]. }
  destruct Hrun as (wh & w1 & w2 & -> & Hfs & Hmsg & [Hp1 H1] & [Hp2 H2]).
  cbn [fst snd w_fs w_trace].
  assert (Hfresh : final ∉ fs ∪ created0 ∪ {[od]})
    by (by apply ensure_unique_filename_not_exists in Hfinal).
  assert (Hin : ∀ x (l l' : list event), l `prefix_of` l' → x ∈ l → x ∈ l').
  { intros x l l' [k ->] Hx. rewrite elem_of_app. by left. }
  split; [done|].
  split; [by eapply Hin, Hin|].
  split; [done|].
  assert (Hch : ∀ p, p ∈ created → p ∈ w_fs wh) by (rewrite Hfs; set_solver).
  clear Hfs Hmsg Hfresh.
  destruct (env_remove_fails e video_file), (env_remove_fails e audio_file);
    rewrite H2, H1; repeat split; try done; try (intros _);
    try (intros p Hp Hnv Hna; specialize (Hch p Hp)); set_solver.
Qed.

Lemma download_mp4_complete_witness :
  let run :=
    download_mp4
      (surroundings catalogue_3 (run_merge_writes {[ py "out/My clip.mp4" ]}))
      (py "url") (Some (py "out")) (start ∅ [py "720p"]) in
  run.1 = Ret tt ∧
  (py "out/video_temp.mp4" ∉ w_fs run.2) ∧
  (py "out/audio_temp.m4a" ∉ w_fs run.2) ∧
  py "out/My clip.mp4" ∈ w_fs run.2.
Proof.
  destruct (download_mp4_complete
              (surroundings catalogue_3
                 (run_merge_writes {[ py "out/My clip.mp4" ]}))
              (py "url") (Some (py "out")) ∅ (py "720p") []
              {| yt_streams := Ok catalogue_3; yt_title := Ok (py "My clip") |}
              catalogue_3 (py "My clip")
              (video_stream 136 "720p") (audio_stream 251 "webm" "160kbps")
              (py "out/My clip.mp4") [] {[ py "out/My clip.mp4" ]}
              [] ∅)
    as (Hret & _ & _ & Hv & Ha & Hc);
    [ first [ reflexivity
            | apply (bool_decide_unpack _); vm_compute; exact I
            | vm_compute; reflexivity ] .. | ].
  split; [exact Hret|]. split; [by apply Hv|]. split; [by apply Ha|].
  apply Hc; [set_solver | discriminate | discriminate].
Defined.
